(** * Time-entry aggregation and audit model of the Azure DevOps time tracker

    A shallow embedding of [src/shared/timeEntryService.ts] (the
    [TimeEntryService] class) and of the flattened-log report page
    ([applyFilters] and [exportToCSV] of the reports script), with the
    properties of the written specification stated over it.

    Conventions of the embedding:
    - a JS [number] is an IEEE-754 binary64 value, i.e. a primitive [float];
    - a JS [string] is a [string]; the empty string is falsy;
    - an optional / possibly [undefined] or [null] property is an [option];
    - an [async] method is a computation in the monad [M] below, which threads
      the state of the outside world (document store, cached data manager)
      and either resolves with a value or rejects with an error;
    - [new Date().toISOString()] is an explicit argument [now]. *)

From Stdlib Require Import Ascii PrimFloat FloatOps SpecFloat Uint63.
From stdpp Require Import gmap strings list pretty.

(** ** JavaScript values *)

Definition number := float.

(** [Number.prototype.toString] and [Number(s)] on a string are built into the
    JS runtime; the code only composes them, so they are an interface here. *)
Class JsRuntime := {
  Number_toString : number → string;
  Number_ofString : string → number
}.

(** A scalar read from a stored JSON document whose static type is [any]. *)
Inductive JsVal :=
  | JNum (x : number)
  | JStr (s : string).

(** [Number(v)] *)
Definition Number `{JsRuntime} (v : JsVal) : number :=
  match v with
  | JNum x => x
  | JStr s => Number_ofString s
  end.

(** Truthiness of a number: [0], [-0] and [NaN] are falsy. *)
Definition truthy_number (x : number) : bool :=
  negb (PrimFloat.eqb x 0%float) && PrimFloat.eqb x x.

(** [x || d] on numbers. *)
Definition or_number (x d : number) : number :=
  if truthy_number x then x else d.

(** Truthiness of a string: only the empty string is falsy. *)
Definition truthy_string (s : string) : bool :=
  match s with
  | EmptyString => false
  | String _ _ => true
  end.

(** [s || d] where [s] may be [undefined]; yields a string. *)
Definition or_string (s : option string) (d : string) : string :=
  match s with
  | Some s' => if truthy_string s' then s' else d
  | None => d
  end.

(** [s || undefined] *)
Definition or_undefined (s : option string) : option string :=
  match s with
  | Some s' => if truthy_string s' then Some s' else None
  | None => None
  end.

(** [s.slice(0, 10)] *)
Definition slice_0_10 (s : string) : string := String.substring 0 10 s.

(** ** Data model ([models.ts]) *)

Record TimeLog := {
  log_date : string;   (* YYYY-MM-DD *)
  log_hours : number
}.

Inductive Action := created | updated.

Record AuditLogEntry := {
  audit_timestamp : string;
  audit_userId : string;
  audit_userName : string;
  audit_action : Action;
  audit_previousHours : option number;
  audit_newHours : number;
  audit_notes : option string
}.

(** A document of the ["TimeEntries"] collection as the store returns it: a
    [TimeEntry], possibly of the legacy shape (scalar [hours], no [logs]),
    together with the store's [__etag].  [doc_logs = None] stands for a
    [logs] property that is missing or not an array. *)
Record Doc := {
  doc_id : string;
  doc_workItemId : option JsVal;
  doc_workItemTitle : option string;
  doc_workItemType : option string;
  doc_projectId : string;
  doc_projectName : option string;
  doc_logs : option (list TimeLog);
  doc_hours : option JsVal;
  doc_date : option string;
  doc_description : string;
  doc_userId : string;
  doc_userName : option string;
  doc_createdAt : option string;
  doc_updatedAt : option string;
  doc_auditLog : option (list AuditLogEntry);
  doc_etag : option Z
}.

(** The argument of [setTimeEntry]:
    [Omit<TimeEntry, "id" | "createdAt" | "updatedAt" | "auditLog"> &
     { hours: number, date: string }]. *)
Record EntryInput := {
  in_workItemId : number;
  in_workItemTitle : option string;
  in_workItemType : option string;
  in_projectId : string;
  in_projectName : option string;
  in_logs : list TimeLog;
  in_description : string;
  in_userId : string;
  in_userName : option string;
  in_hours : number;
  in_date : string
}.

(** The settings document is used as a plain object (it is spread). *)
Abbreviation SettingsObj := (gmap string JsVal).

Definition COLLECTION_NAME : string := "TimeEntries".
Definition SETTINGS_COLLECTION : string := "TimeTrackerSettings".
Definition SETTINGS_DOC_ID : string := "global-settings".

Definition DEFAULT_SETTINGS : SettingsObj :=
  {[ "hourIncrement" := JNum 0.5%float ]}.

(** ** The outside world and the monad of asynchronous calls *)

Inductive Error :=
  | NotFound          (* the requested document does not exist *)
  | StoreUnavailable  (* network / auth failure reaching the store *)
  | StaleWrite        (* concurrency token mismatch *)
  | SdkFailure.       (* the SDK could not hand out a data manager *)

Inductive Outcome (A : Type) :=
  | Resolved (a : A)
  | Rejected (e : Error).
Arguments Resolved {A} a.
Arguments Rejected {A} e.

(** A request sent to the document store. *)
Inductive Request :=
  | ReqGetDocument (collection id : string)
  | ReqGetDocuments (collection : string)
  | ReqSetDocument (collection id : string).

(** [faults] is the fault schedule of the store: each request consumes the
    head of the list and fails with it when it is [Some e]; an exhausted
    schedule means the store answers.  [requests] records every request sent,
    oldest first.  [managerCached] is [this.dataManager !== null]; [sdkFault]
    is what the SDK does when asked for a data manager. *)
Record World := {
  timeEntries : gmap string Doc;
  settingsDocs : gmap string SettingsObj;
  faults : list (option Error);
  requests : list Request;
  managerCached : bool;
  sdkFault : option Error
}.

Definition M (A : Type) : Type := World → Outcome A * World.

Definition ret {A} (a : A) : M A := λ w, (Resolved a, w).

Definition throw {A} (e : Error) : M A := λ w, (Rejected e, w).

Definition bind {A B} (m : M A) (k : A → M B) : M B :=
  λ w, match m w with
       | (Resolved a, w') => k a w'
       | (Rejected e, w') => (Rejected e, w')
       end.

(** [try { m } catch { h }] *)
Definition try_catch {A} (m : M A) (h : Error → M A) : M A :=
  λ w, match m w with
       | (Resolved a, w') => (Resolved a, w')
       | (Rejected e, w') => h e w'
       end.

#[global] Instance M_ret : MRet M := @ret.
#[global] Instance M_bind : MBind M := λ A B k m, bind m k.

(** *** The document store adapter *)

Definition nextFault (w : World) : option Error :=
  match faults w with
  | Some e :: _ => Some e
  | _ => None
  end.

Definition send (r : Request) (w : World) : option Error * World :=
  (nextFault w,
   {| timeEntries := timeEntries w;
      settingsDocs := settingsDocs w;
      faults := tail (faults w);
      requests := requests w ++ [r];
      managerCached := managerCached w;
      sdkFault := sdkFault w |}).

Definition with_timeEntries (w : World) (m : gmap string Doc) : World :=
  {| timeEntries := m;
     settingsDocs := settingsDocs w;
     faults := faults w;
     requests := requests w;
     managerCached := managerCached w;
     sdkFault := sdkFault w |}.

Definition with_etag (d : Doc) (t : option Z) : Doc :=
  {| doc_id := doc_id d;
     doc_workItemId := doc_workItemId d;
     doc_workItemTitle := doc_workItemTitle d;
     doc_workItemType := doc_workItemType d;
     doc_projectId := doc_projectId d;
     doc_projectName := doc_projectName d;
     doc_logs := doc_logs d;
     doc_hours := doc_hours d;
     doc_date := doc_date d;
     doc_description := doc_description d;
     doc_userId := doc_userId d;
     doc_userName := doc_userName d;
     doc_createdAt := doc_createdAt d;
     doc_updatedAt := doc_updatedAt d;
     doc_auditLog := doc_auditLog d;
     doc_etag := t |}.

(** Modelled from the spec: the Document Store Adapter is an external
    collaborator (the Azure DevOps extension data manager);
    [getDocument(collection, id)] yields the document or not-found. *)
Definition getDocument (id : string) : M (option Doc) :=
  λ w, match send (ReqGetDocument COLLECTION_NAME id) w with
       | (Some e, w') => (Rejected e, w')
       | (None, w') =>
           match timeEntries w' !! id with
           | Some d => (Resolved (Some d), w')
           | None => (Rejected NotFound, w')
           end
       end.

(** Modelled from the spec: [getDocuments(collection)] of the external
    Document Store Adapter yields the sequence of all documents. *)
Definition getDocuments : M (list Doc) :=
  λ w, match send (ReqGetDocuments COLLECTION_NAME) w with
       | (Some e, w') => (Rejected e, w')
       | (None, w') => (Resolved (map_to_list (timeEntries w')).*2, w')
       end.

(** A carried concurrency token is stale when it is not the token of the
    stored document. *)
Definition stale (token : option Z) (stored : option Doc) : bool :=
  match token with
  | None => false
  | Some t =>
      match stored with
      | Some s => negb (bool_decide (doc_etag s = Some t))
      | None => true
      end
  end.

Definition next_etag (stored : option Doc) : Z :=
  match stored with
  | Some s => default 0%Z (doc_etag s) + 1
  | None => 1
  end.

(** Modelled from the spec: [setDocument(collection, doc)] of the external
    Document Store Adapter is an upsert; the document may carry a concurrency
    token and the write fails if the token is stale.  The store stamps the
    stored document with a fresh token. *)
Definition setDocument (doc : Doc) : M unit :=
  λ w, match send (ReqSetDocument COLLECTION_NAME (doc_id doc)) w with
       | (Some e, w') => (Rejected e, w')
       | (None, w') =>
           let stored := timeEntries w' !! doc_id doc in
           if stale (doc_etag doc) stored then (Rejected StaleWrite, w')
           else (Resolved (),
                 with_timeEntries w'
                   (<[doc_id doc := with_etag doc (Some (next_etag stored))]>
                      (timeEntries w')))
       end.

(** Modelled from the spec: [getDocument] of the external Document Store
    Adapter, on the settings collection. *)
Definition getSettingsDocument (id : string) : M SettingsObj :=
  λ w, match send (ReqGetDocument SETTINGS_COLLECTION id) w with
       | (Some e, w') => (Rejected e, w')
       | (None, w') =>
           match settingsDocs w' !! id with
           | Some d => (Resolved d, w')
           | None => (Rejected NotFound, w')
           end
       end.

(** ** [TimeEntryService] *)

(** [getDataManager]: the handle is created once through the SDK, then
    reused. *)
Definition getDataManager : M unit :=
  λ w, if managerCached w then (Resolved (), w)
       else match sdkFault w with
            | Some e => (Rejected e, w)
            | None =>
                (Resolved (),
                 {| timeEntries := timeEntries w;
                    settingsDocs := settingsDocs w;
                    faults := faults w;
                    requests := requests w;
                    managerCached := true;
                    sdkFault := sdkFault w |})
            end.

Section Service.
Context `{JsRuntime}.

(** [generateId] *)
Definition generateId (workItemId : number) (userId : string) : string :=
  "time-entry-" +:+ Number_toString workItemId +:+ "-" +:+ userId.

(** [{ ...a, ...b }] *)
Definition spread (a b : SettingsObj) : SettingsObj := b ∪ a.

(** [getSettings] *)
Definition getSettings : M SettingsObj :=
  getDataManager;;
  try_catch
    (settings ← getSettingsDocument SETTINGS_DOC_ID;
     mret (spread DEFAULT_SETTINGS settings))
    (λ _, mret DEFAULT_SETTINGS).

(** The backwards-compatibility step of [getTimeEntry] and
    [getAllTimeEntries]: if the legacy [hours] field exists but no [logs],
    synthesize the [logs] array. *)
Definition migrateLegacy (now : string) (doc : Doc) : Doc :=
  match doc_logs doc, doc_hours doc with
  | None, Some hours =>
      let dateSrc :=
        slice_0_10 (or_string (doc_updatedAt doc)
                      (or_string (doc_createdAt doc) now)) in
      {| doc_id := doc_id doc;
         doc_workItemId := doc_workItemId doc;
         doc_workItemTitle := doc_workItemTitle doc;
         doc_workItemType := doc_workItemType doc;
         doc_projectId := doc_projectId doc;
         doc_projectName := doc_projectName doc;
         doc_logs :=
           Some [ {| log_date := dateSrc;
                     log_hours := or_number (Number hours) 0%float |} ];
         doc_hours := doc_hours doc;
         doc_date := doc_date doc;
         doc_description := doc_description doc;
         doc_userId := doc_userId doc;
         doc_userName := doc_userName doc;
         doc_createdAt := doc_createdAt doc;
         doc_updatedAt := doc_updatedAt doc;
         doc_auditLog := doc_auditLog doc;
         doc_etag := doc_etag doc |}
  | _, _ => doc
  end.

(** Normalize [workItemId] to number. *)
Definition normalizeWorkItemId (doc : Doc) : Doc :=
  match doc_workItemId doc with
  | Some v =>
      {| doc_id := doc_id doc;
         doc_workItemId := Some (JNum (Number v));
         doc_workItemTitle := doc_workItemTitle doc;
         doc_workItemType := doc_workItemType doc;
         doc_projectId := doc_projectId doc;
         doc_projectName := doc_projectName doc;
         doc_logs := doc_logs doc;
         doc_hours := doc_hours doc;
         doc_date := doc_date doc;
         doc_description := doc_description doc;
         doc_userId := doc_userId doc;
         doc_userName := doc_userName doc;
         doc_createdAt := doc_createdAt doc;
         doc_updatedAt := doc_updatedAt doc;
         doc_auditLog := doc_auditLog doc;
         doc_etag := doc_etag doc |}
  | None => doc
  end.

(** What both read paths do to a loaded document. *)
Definition normalize (now : string) (doc : Doc) : Doc :=
  normalizeWorkItemId (migrateLegacy now doc).

(** [getTimeEntry] *)
Definition getTimeEntry (id : string) (now : string) : M (option Doc) :=
  getDataManager;;
  try_catch
    (doc ← getDocument id;
     match doc with
     | None => mret None
     | Some doc => mret (Some (normalize now doc))
     end)
    (λ _, mret None).

(** [getAllTimeEntries] *)
Definition getAllTimeEntries (now : string) : M (list Doc) :=
  getDataManager;;
  try_catch
    (documents ← getDocuments;
     match documents with
     | [] => mret []
     | _ => mret (normalize now <$> documents)
     end)
    (λ _, mret []).

(** The index and the element found by
    [logs.findIndex(l => l.date === date)]. *)
Definition findIndex (date : string) (logs : list TimeLog)
  : option (nat * TimeLog) :=
  list_find (λ l, log_date l = date) logs.

(** [logs[i].hours = hours] *)
Definition setHoursAt (i : nat) (hours : number) (logs : list TimeLog)
  : list TimeLog :=
  match logs !! i with
  | Some l => <[i := {| log_date := log_date l; log_hours := hours |}]> logs
  | None => logs
  end.

(** The document [setTimeEntry] assembles between its read and its write,
    from the entry, the comment, the clock and the existing entry. *)
Definition buildTimeEntry (entry : EntryInput) (comment : option string)
    (now : string) (existingEntry : option Doc) : Doc :=
  let id := generateId (in_workItemId entry) (in_userId entry) in
  let logs0 : list TimeLog :=
    match existingEntry with
    | Some e => default [] (doc_logs e)
    | None => []
    end in
  (* Find if there's already a log for this date *)
  let logIdx := findIndex (in_date entry) logs0 in
  let previousHours : number :=
    match logIdx with
    | Some (_, l) => log_hours l
    | None => 0%float
    end in
  let logs : list TimeLog :=
    match logIdx with
    | Some (i, _) => setHoursAt i (in_hours entry) logs0
    | None =>
        logs0 ++ [ {| log_date := in_date entry; log_hours := in_hours entry |} ]
    end in
  (* Create audit log entry *)
  let auditEntry : AuditLogEntry :=
    {| audit_timestamp := now;
       audit_userId := in_userId entry;
       audit_userName := or_string (in_userName entry) (in_userId entry);
       audit_action :=
         match existingEntry with
         | Some _ => updated
         | None => created
         end;
       audit_previousHours := Some previousHours;
       audit_newHours :=
         match logIdx with
         | Some (i, _) => default (in_hours entry) (log_hours <$> logs !! i)
         | None => in_hours entry
         end;
       audit_notes := or_undefined comment |} in
  (* Preserve existing audit log and add new entry *)
  let auditLog : list AuditLogEntry :=
    match existingEntry with
    | Some e => default [] (doc_auditLog e)
    | None => []
    end ++ [auditEntry] in
  (* Preserve __etag for optimistic concurrency *)
  let existingEtag : option Z :=
    match existingEntry with
    | Some e => doc_etag e
    | None => None
    end in
  {| doc_id := id;
     doc_workItemId := Some (JNum (in_workItemId entry));
     doc_workItemTitle := in_workItemTitle entry;
     doc_workItemType := in_workItemType entry;
     doc_projectId := in_projectId entry;
     doc_projectName := in_projectName entry;
     doc_logs := Some logs;
     doc_hours := Some (JNum (in_hours entry));
     doc_date := Some (in_date entry);
     doc_description := in_description entry;
     doc_userId := in_userId entry;
     doc_userName := in_userName entry;
     doc_createdAt :=
       Some (or_string (existingEntry ≫= doc_createdAt) now);
     doc_updatedAt := Some now;
     doc_auditLog := Some auditLog;
     doc_etag := existingEtag |}.

(** [setTimeEntry] *)
Definition setTimeEntry (entry : EntryInput) (comment : option string)
    (now : string) : M Doc :=
  getDataManager;;
  let id := generateId (in_workItemId entry) (in_userId entry) in
  (* Check if entry exists *)
  existingEntry ← getTimeEntry id now;
  let timeEntry := buildTimeEntry entry comment now existingEntry in
  setDocument timeEntry;;
  mret timeEntry.

(** A caller that awaits its calls one after the other, each call reading the
    state left by the previous one. *)
Definition Call : Type := EntryInput * option string * string.

Fixpoint runCalls (calls : list Call) : M (list Doc) :=
  match calls with
  | [] => mret []
  | (entry, comment, now) :: rest =>
      r ← setTimeEntry entry comment now;
      rs ← runCalls rest;
      mret (r :: rs)
  end.

End Service.

(** ** The report page (flattened logs) *)

Record FlatLog := {
  row_workItemId : number;
  row_workItemTitle : option string;
  row_workItemType : option string;
  row_projectId : string;
  row_projectName : option string;
  row_userId : string;
  row_userName : option string;
  row_description : string;
  row_date : string;
  row_hours : number
}.

(** The [.value] of the filter controls; the work item id control is looked
    up with [?.] and may be missing from the page. *)
Record FilterInputs := {
  filterStartDate : string;
  filterEndDate : string;
  filterUser : string;
  filterWorkItemType : string;
  filterWorkItemId : option string
}.

Record TimeReportFilter := {
  startDate : option string;
  endDate : option string;
  userId : option string;
  workItemType : option string
}.

(** [c && test(c)] for an optional string [c]. *)
Definition and_then (c : option string) (test : string → bool) : bool :=
  match c with
  | Some c' => truthy_string c' && test c'
  | None => false
  end.

Definition dquote : ascii := "034"%char.
Definition comma : ascii := ","%char.
Definition newline : ascii := "010"%char.

(** [s.replace(/<quote>/g, <quote><quote>)]: every double quote character
    is doubled. *)
Fixpoint doubleQuotes (s : string) : string :=
  match s with
  | EmptyString => EmptyString
  | String c rest =>
      if Ascii.eqb c dquote
      then String dquote (String dquote (doubleQuotes rest))
      else String c (doubleQuotes rest)
  end.

(** [parts.join(sep)] *)
Fixpoint join (sep : string) (parts : list string) : string :=
  match parts with
  | [] => ""
  | [p] => p
  | p :: rest => p +:+ sep +:+ join sep rest
  end.

Section Reports.
Context `{JsRuntime}.

(** The callback of [flatLogs.filter] in [applyFilters]. *)
Definition keepLog (currentFilter : TimeReportFilter)
    (workItemIdFilter : option string) (log : FlatLog) : bool :=
  if and_then (startDate currentFilter) (λ s, String.ltb (row_date log) s)
  then false
  else if and_then (endDate currentFilter) (λ e, String.ltb e (row_date log))
  then false
  else if and_then (userId currentFilter)
            (λ u, negb (bool_decide (row_userId log = u)))
  then false
  else if and_then (workItemType currentFilter)
            (λ t, negb (bool_decide (row_workItemType log = Some t)))
  then false
  else if and_then workItemIdFilter
            (λ i, negb (bool_decide (Number_toString (row_workItemId log) = i)))
  then false
  else true.

(** [applyFilters]: the value it assigns to [filteredLogs]. *)
Definition applyFilters (inputs : FilterInputs) (flatLogs : list FlatLog)
  : list FlatLog :=
  let currentFilter :=
    {| startDate := or_undefined (Some (filterStartDate inputs));
       endDate := or_undefined (Some (filterEndDate inputs));
       userId := or_undefined (Some (filterUser inputs));
       workItemType := or_undefined (Some (filterWorkItemType inputs)) |} in
  (* Get work item id filter value *)
  let workItemIdFilter := or_undefined (filterWorkItemId inputs) in
  (* Filter logs using date and work item id *)
  List.filter (keepLog currentFilter workItemIdFilter) flatLogs.

(** One line of the export of the report page. *)
Definition csvLine (log : FlatLog) : string :=
  join ","
    [ "#" +:+ Number_toString (row_workItemId log);
      or_string (row_workItemType log) "-";
      Number_toString (row_hours log);
      or_string (row_userName log) (or_string (Some (row_userId log)) "-");
      String dquote (doubleQuotes (or_string (Some (row_description log)) "")
                       +:+ String dquote "");
      row_date log ].

(** [exportToCSV] of the report page: the text put in the downloaded blob, or
    [None] when there is nothing to export (an alert is shown instead). *)
Definition exportToCSV (filteredLogs : list FlatLog) : option string :=
  match filteredLogs with
  | [] => None
  | _ =>
      Some (join (String newline "")
              ("Work Item,Type,Hours,User,Description,Date"
                 :: (csvLine <$> filteredLogs)))
  end.

(** The cells the export is meant to carry for a row, in column order. *)
Definition csvCells (log : FlatLog) : list string :=
  [ "#" +:+ Number_toString (row_workItemId log);
    or_string (row_workItemType log) "-";
    Number_toString (row_hours log);
    or_string (row_userName log) (or_string (Some (row_userId log)) "-");
    row_description log;
    row_date log ].

End Reports.

(** ** The export of [TimeEntryService] (one line per record) *)

Section ServiceExport.
Context `{JsRuntime}.

(** [v.toString()] for a number or a string. *)
Definition JsVal_toString (v : JsVal) : string :=
  match v with
  | JNum x => Number_toString x
  | JStr s => s
  end.

(** [entry.logs ? entry.logs.reduce((s, l) => s + l.hours, 0) : 0] *)
Definition sumHours (logs : option (list TimeLog)) : number :=
  match logs with
  | Some l => foldl (λ s l, (s + log_hours l)%float) 0%float l
  | None => 0%float
  end.

(** The cells of one record; [None] is the TypeError of
    [entry.workItemId.toString()] on a record without work item id. A missing
    [updatedAt] is joined as the empty string. *)
Definition entryRow (entry : Doc) : option (list string) :=
  workItemId ← doc_workItemId entry;
  Some [ JsVal_toString workItemId;
         String dquote
           (doubleQuotes (or_string (doc_workItemTitle entry) "")
              +:+ String dquote "");
         or_string (doc_workItemType entry) "";
         Number_toString (sumHours (doc_logs entry));
         or_string (doc_userName entry) (doc_userId entry);
         String dquote
           (doubleQuotes (or_string (Some (doc_description entry)) "")
              +:+ String dquote "");
         default "" (doc_updatedAt entry) ].

(** [TimeEntryService.exportToCSV] *)
Definition TimeEntryService_exportToCSV (entries : list Doc) : option string :=
  rows ← mapM entryRow entries;
  Some (join (String newline "")
          (join ","
             [ "Work Item ID"; "Work Item Title"; "Type"; "Hours"; "User";
               "Description"; "Last Updated" ]
             :: (join "," <$> rows))).

End ServiceExport.

(** ** A reader of CSV text

    The reader the round-trip property of the export is stated against: the
    quoting rules of RFC 4180 (a field that starts with a quote runs to the
    closing quote, a doubled quote inside it is one quote; commas separate
    fields and line breaks separate records outside quotes). *)

Inductive CsvState :=
  | FieldStart      (* nothing of the field read yet *)
  | InPlain         (* inside an unquoted field *)
  | InQuoted        (* inside a quoted field *)
  | AfterQuote.     (* just read a quote inside a quoted field *)

(** [field] is the field read so far, reversed; [record] the fields of the
    current record, reversed. *)
Fixpoint readCSV_go (st : CsvState) (field : string) (record : list string)
    (s : string) : list (list string) :=
  match s with
  | EmptyString => [ reverse (String.rev field :: record) ]
  | String c rest =>
      let plain :=
        if Ascii.eqb c comma
        then readCSV_go FieldStart "" (String.rev field :: record) rest
        else if Ascii.eqb c newline
        then reverse (String.rev field :: record)
               :: readCSV_go FieldStart "" [] rest
        else readCSV_go InPlain (String c field) record rest in
      match st with
      | FieldStart =>
          if Ascii.eqb c dquote
          then readCSV_go InQuoted field record rest
          else plain
      | InPlain => plain
      | InQuoted =>
          if Ascii.eqb c dquote
          then readCSV_go AfterQuote field record rest
          else readCSV_go InQuoted (String c field) record rest
      | AfterQuote =>
          if Ascii.eqb c dquote
          then readCSV_go InQuoted (String dquote field) record rest
          else plain
      end
  end.

Definition readCSV (s : string) : list (list string) :=
  readCSV_go FieldStart "" [] s.

(** ** A runtime for the worked examples

    A decimal rendering of binary64 numbers by their exact expansion, which is
    what [Number.prototype.toString] prints for the integers below [2^53] and
    for the short binary fractions ([0.5], [1.5], [2.25]) that the examples
    use; and [Number(s)] for strings of decimal digits. *)

Fixpoint dropTrailingZeros_go (s : string) : string :=
  match s with
  | String "0" rest => dropTrailingZeros_go rest
  | _ => s
  end.

Definition dropTrailingZeros (s : string) : string :=
  String.rev (dropTrailingZeros_go (String.rev s)).

Fixpoint zeros (n : nat) : string :=
  match n with
  | O => ""
  | S n' => String "0" (zeros n')
  end.

Definition exactDecimal (m : positive) (e : Z) : string :=
  if (0 <=? e)%Z then pretty (Z.pos m * 2 ^ e)%Z
  else
    let k := (- e)%Z in
    let scaled := (Z.pos m * 5 ^ k)%Z in
    let whole := (scaled `div` 10 ^ k)%Z in
    let frac := (scaled `mod` 10 ^ k)%Z in
    if (frac =? 0)%Z then pretty whole
    else
      let digits := pretty frac in
      pretty whole +:+ "." +:+
        dropTrailingZeros
          (zeros (Z.to_nat k - String.length digits) +:+ digits).

Definition example_toString (x : number) : string :=
  match Prim2SF x with
  | S754_zero _ => "0"
  | S754_infinity false => "Infinity"
  | S754_infinity true => "-Infinity"
  | S754_nan => "NaN"
  | S754_finite false m e => exactDecimal m e
  | S754_finite true m e => "-" +:+ exactDecimal m e
  end.

Fixpoint digitsValue (acc : Z) (s : string) : option Z :=
  match s with
  | EmptyString => Some acc
  | String c rest =>
      let n := Z.of_nat (nat_of_ascii c) in
      if ((48 <=? n) && (n <=? 57))%Z
      then digitsValue (10 * acc + (n - 48)) rest
      else None
  end.

Definition example_ofString (s : string) : number :=
  match s with
  | EmptyString => 0%float
  | _ =>
      match digitsValue 0 s with
      | Some z => PrimFloat.of_uint63 (Uint63.of_Z z)
      | None => nan
      end
  end.

Definition exampleRuntime : JsRuntime :=
  {| Number_toString := example_toString;
     Number_ofString := example_ofString |}.

(** ** Vocabulary of the properties *)

(** The data manager can be had: it is cached already, or the SDK hands one
    out. *)
Definition managerAvailable (w : World) : Prop :=
  managerCached w = true ∨ sdkFault w = None.

(** The fault, if any, with which the store answers the [n]-th request from
    now (counting from 0). *)
Definition faultAt (n : nat) (w : World) : option Error :=
  match faults w !! n with
  | Some (Some e) => Some e
  | _ => None
  end.

(** A world in which calls go through: a data manager can be had and the
    store answers every request. *)
Definition reliable (w : World) : Prop :=
  managerAvailable w ∧ faults w = [].

(** The world after a method obtained the data manager and sent [rs], the
    [n] requests it makes, to the store. *)
Definition afterRequests (w : World) (rs : list Request) (n : nat) : World :=
  {| timeEntries := timeEntries w;
     settingsDocs := settingsDocs w;
     faults := drop n (faults w);
     requests := requests w ++ rs;
     managerCached := true;
     sdkFault := sdkFault w |}.

Definition call_entry (c : Call) : EntryInput := c.1.1.
Definition call_comment (c : Call) : option string := c.1.2.
Definition call_now (c : Call) : string := c.2.
Definition call_date (c : Call) : string := in_date (call_entry c).
Definition call_hours (c : Call) : number := in_hours (call_entry c).

(** The updatedAt-or-createdAt timestamp of a document, if it has one. *)
Definition timestampOf (doc : Doc) : option string :=
  match or_undefined (doc_updatedAt doc) with
  | Some t => Some t
  | None => or_undefined (doc_createdAt doc)
  end.

(** All the calls are for the pair [(workItemId, userId)]. *)
Definition samePair (workItemId : number) (userId : string)
    (calls : list Call) : Prop :=
  Forall (λ c, in_workItemId (call_entry c) = workItemId ∧
               in_userId (call_entry c) = userId) calls.

(** The hours most recently written for [date] by [calls], if any. *)
Definition lastWritten (date : string) (calls : list Call) : option number :=
  foldl (λ acc c, if decide (call_date c = date)
                  then Some (call_hours c) else acc) None calls.

(** The number of distinct dates written by [calls]. *)
Definition distinctDates (calls : list Call) : nat :=
  size (list_to_set (call_date <$> calls) : gset string).

(** The logs and the audit log of a record that may not exist yet. *)
Definition logsOf (record : option Doc) : list TimeLog :=
  default [] (record ≫= doc_logs).

Definition auditLogOf (record : option Doc) : list AuditLogEntry :=
  default [] (record ≫= doc_auditLog).

(** The logs and the audit log of the record stored under [id]. *)
Definition logsAt (id : string) (w : World) : list TimeLog :=
  logsOf (timeEntries w !! id).

Definition auditLogAt (id : string) (w : World) : list AuditLogEntry :=
  auditLogOf (timeEntries w !! id).

(** The record, if there is one, is of the multi-log shape. *)
Definition hasLogs (record : option Doc) : Prop :=
  ∀ d, record = Some d → is_Some (doc_logs d).

(** The hours logged for [date] in [logs], if any. *)
Definition hoursOn (date : string) (logs : list TimeLog) : option number :=
  (log_hours ∘ snd) <$> list_find (λ l, log_date l = date) logs.

(** The replace-or-append that [setTimeEntry] performs on the logs. *)
Definition upsertLog (date : string) (hours : number) (logs : list TimeLog)
  : list TimeLog :=
  match list_find (λ l, log_date l = date) logs with
  | Some (i, _) =>
      match logs !! i with
      | Some l => <[i := {| log_date := log_date l; log_hours := hours |}]> logs
      | None => logs
      end
  | None => logs ++ [ {| log_date := date; log_hours := hours |} ]
  end.

(** The logs after the writes of [calls], in order, starting from [logs]. *)
Definition writesTo (calls : list Call) (logs : list TimeLog) : list TimeLog :=
  foldl (λ l c, upsertLog (call_date c) (call_hours c) l) logs calls.

(** The audit event the data model asks of a call: [first] tells whether no
    record existed, [previous] is the hours logged for the date before. *)
Definition eventOf (c : Call) (first : bool) (previous : option number)
  : AuditLogEntry :=
  {| audit_timestamp := call_now c;
     audit_userId := in_userId (call_entry c);
     audit_userName :=
       or_string (in_userName (call_entry c)) (in_userId (call_entry c));
     audit_action := if first then created else updated;
     audit_previousHours := Some (default 0%float previous);
     audit_newHours := call_hours c;
     audit_notes := or_undefined (call_comment c) |}.

Section Replay.
Context `{JsRuntime}.

(** What the store holds under the record's id after a call that went
    through, given what it held before. *)
Definition storedAfter (c : Call) (stored : option Doc) : Doc :=
  with_etag
    (buildTimeEntry (call_entry c) (call_comment c) (call_now c)
       (normalize (call_now c) <$> stored))
    (Some (next_etag stored)).

Definition replay (calls : list Call) (stored : option Doc) : option Doc :=
  foldl (λ s c, Some (storedAfter c s)) stored calls.

(** The documents the calls return. *)
Fixpoint replayReturns (calls : list Call) (stored : option Doc) : list Doc :=
  match calls with
  | [] => []
  | c :: rest =>
      buildTimeEntry (call_entry c) (call_comment c) (call_now c)
        (normalize (call_now c) <$> stored)
        :: replayReturns rest (Some (storedAfter c stored))
  end.

End Replay.

(** *** Plain cells of the export *)

(** A field that can be written to a line without quotes: it has no comma,
    no quote and no line break. *)
Definition plainChar (c : ascii) : bool :=
  negb (Ascii.eqb c comma) && negb (Ascii.eqb c dquote) &&
  negb (Ascii.eqb c newline).

Fixpoint plain (s : string) : bool :=
  match s with
  | EmptyString => true
  | String c rest => plainChar c && plain rest
  end.

(** The state of the reader after the characters of a plain text. *)
Definition afterPlain (st : CsvState) (p : string) : CsvState :=
  match p with
  | EmptyString => st
  | String _ _ => InPlain
  end.

(** The cells of the row that the export writes without quotes are plain. *)
Definition plainRow `{JsRuntime} (row : FlatLog) : Prop :=
  plain (Number_toString (row_workItemId row)) = true ∧
  plain (or_string (row_workItemType row) "-") = true ∧
  plain (Number_toString (row_hours row)) = true ∧
  plain (or_string (row_userName row) (or_string (Some (row_userId row)) "-"))
    = true ∧
  plain (row_date row) = true.

(** *** Criteria of the report filter *)

Record Criteria := {
  fromDate : option string;
  toDate : option string;
  byUserId : option string;
  byWorkItemType : option string;
  byWorkItemId : option string
}.

(** A provided criterion constrains the row, an absent one does not. *)
Definition whenProvided (criterion : option string) (P : string → Prop)
  : Prop :=
  match criterion with
  | Some v => P v
  | None => True
  end.

#[global] Instance whenProvided_dec criterion P :
  (∀ v, Decision (P v)) → Decision (whenProvided criterion P).
Proof. intros HP. destruct criterion; apply _. Defined.

Section Criteria.
Context `{JsRuntime}.

(** The row satisfies all the provided criteria: its own date lies in the
    inclusive range, compared as strings; user id, work item type and work
    item id (as the page shows it) match exactly. *)
Definition satisfies (c : Criteria) (row : FlatLog) : Prop :=
  whenProvided (fromDate c) (λ start, (start ≤ row_date row)%string) ∧
  whenProvided (toDate c) (λ stop, (row_date row ≤ stop)%string) ∧
  whenProvided (byUserId c) (λ u, row_userId row = u) ∧
  whenProvided (byWorkItemType c) (λ t, row_workItemType row = Some t) ∧
  whenProvided (byWorkItemId c)
    (λ i, Number_toString (row_workItemId row) = i).

#[global] Instance satisfies_dec c row : Decision (satisfies c row).
Proof. unfold satisfies. apply _. Defined.

End Criteria.

(** A filter control left empty provides no criterion. *)
Definition provided (value : string) : option string :=
  if decide (value = "") then None else Some value.

Definition criteriaOf (inputs : FilterInputs) : Criteria :=
  {| fromDate := provided (filterStartDate inputs);
     toDate := provided (filterEndDate inputs);
     byUserId := provided (filterUser inputs);
     byWorkItemType := provided (filterWorkItemType inputs);
     byWorkItemId := filterWorkItemId inputs ≫= provided |}.

(** ** Data of the worked examples *)


(** A world without records in which the store answers. *)
Definition freshWorld : World :=
  {| timeEntries := ∅;
     settingsDocs := ∅;
     faults := [];
     requests := [];
     managerCached := false;
     sdkFault := None |}.

Definition exampleEntry (date : string) (hours : number) : EntryInput :=
  {| in_workItemId := 42%float;
     in_workItemTitle := Some "Fix login";
     in_workItemType := Some "Bug";
     in_projectId := "proj";
     in_projectName := Some "Web";
     in_logs := [];
     in_description := "";
     in_userId := "u1";
     in_userName := Some "Ann";
     in_hours := hours;
     in_date := date |}.

Definition twoCalls : list Call :=
  [ (exampleEntry "2024-01-01" 3%float, None, "2024-01-01T09:00:00.000Z");
    (exampleEntry "2024-01-01" 5%float, Some "more", "2024-01-01T17:00:00.000Z") ].

Definition threeCalls : list Call :=
  twoCalls ++
  [ (exampleEntry "2024-01-02" 2.5%float, None, "2024-01-02T17:00:00.000Z") ].

(** A record as the store holds it after a first call. *)
Definition storedExample : Doc :=
  {| doc_id := "time-entry-42-u1";
     doc_workItemId := Some (JNum 42%float);
     doc_workItemTitle := Some "Fix login";
     doc_workItemType := Some "Bug";
     doc_projectId := "proj";
     doc_projectName := Some "Web";
     doc_logs := Some [ {| log_date := "2024-01-01"; log_hours := 3%float |} ];
     doc_hours := Some (JNum 3%float);
     doc_date := Some "2024-01-01";
     doc_description := "";
     doc_userId := "u1";
     doc_userName := Some "Ann";
     doc_createdAt := Some "2024-01-01T09:00:00.000Z";
     doc_updatedAt := Some "2024-01-01T09:00:00.000Z";
     doc_auditLog :=
       Some [ {| audit_timestamp := "2024-01-01T09:00:00.000Z";
                 audit_userId := "u1";
                 audit_userName := "Ann";
                 audit_action := created;
                 audit_previousHours := Some 0%float;
                 audit_newHours := 3%float;
                 audit_notes := None |} ];
     doc_etag := Some 1%Z |}.

Definition worldWithRecord (fs : list (option Error)) : World :=
  {| timeEntries := {[ "time-entry-42-u1" := storedExample ]};
     settingsDocs := ∅;
     faults := fs;
     requests := [];
     managerCached := true;
     sdkFault := None |}.

(** A world without records in which the store is unreachable for the next
    request. *)
Definition worldReadDown : World :=
  {| timeEntries := ∅;
     settingsDocs := ∅;
     faults := [Some StoreUnavailable];
     requests := [];
     managerCached := false;
     sdkFault := None |}.

(** A record of the legacy shape: scalar hours, no logs, a textual work item
    id. *)
Definition legacyExample : Doc :=
  {| doc_id := "time-entry-7-u2";
     doc_workItemId := Some (JStr "7");
     doc_workItemTitle := Some "Old task";
     doc_workItemType := Some "Task";
     doc_projectId := "proj";
     doc_projectName := None;
     doc_logs := None;
     doc_hours := Some (JNum 4%float);
     doc_date := None;
     doc_description := "";
     doc_userId := "u2";
     doc_userName := Some "Bob";
     doc_createdAt := Some "2023-05-01T08:00:00.000Z";
     doc_updatedAt := Some "2023-05-06T10:11:12.000Z";
     doc_auditLog := None;
     doc_etag := Some 3%Z |}.

Definition worldWithLegacy (fs : list (option Error)) : World :=
  {| timeEntries := {[ "time-entry-7-u2" := legacyExample;
                       "time-entry-42-u1" := storedExample ]};
     settingsDocs := ∅;
     faults := fs;
     requests := [];
     managerCached := false;
     sdkFault := None |}.

Definition exampleRow (date : string) (user : option string) (description : string)
  : FlatLog :=
  {| row_workItemId := 42%float;
     row_workItemTitle := Some "Fix login";
     row_workItemType := Some "Bug";
     row_projectId := "proj";
     row_projectName := Some "Web";
     row_userId := "u1";
     row_userName := user;
     row_description := description;
     row_date := date;
     row_hours := 1.5%float |}.

(** ** Further methods of [TimeEntryService] *)

#[global] Instance spec_float_eq_dec : EqDecision spec_float.
Proof. solve_decision. Defined.

(** Two numbers are the same token when they are the same binary64 value. *)
Definition sameNumber (a b : number) : bool :=
  bool_decide (Prim2SF a = Prim2SF b).

Definition sameToken (a b : JsVal) : bool :=
  match a, b with
  | JNum x, JNum y => sameNumber x y
  | JStr s, JStr t => bool_decide (s = t)
  | _, _ => false
  end.

(** The concurrency token of a document used as a plain object is its
    [__etag] property. *)
Definition tokenOf (doc : SettingsObj) : option JsVal := doc !! "__etag".

Definition staleObj (doc : SettingsObj) (stored : option SettingsObj) : bool :=
  match tokenOf doc with
  | None => false
  | Some t =>
      match stored ≫= tokenOf with
      | Some t' => negb (sameToken t t')
      | None => true
      end
  end.

Definition nextToken (stored : option SettingsObj) : JsVal :=
  match stored ≫= tokenOf with
  | Some (JNum t) => JNum (t + 1)%float
  | _ => JNum 1%float
  end.

(** The id under which the store files a document: its [id] property. (The
    store picks an id for a document without one; the service never sends
    such a document, and the model files it under the empty id.) *)
Definition idOf (doc : SettingsObj) : string :=
  match doc !! "id" with
  | Some (JStr i) => i
  | _ => ""
  end.

(** Modelled from the spec: [setDocument(collection, doc)] of the external
    Document Store Adapter, on the settings collection: an upsert that fails
    if the document carries a stale concurrency token, and that stamps the
    stored document with a fresh token. *)
Definition setSettingsDocument (doc : SettingsObj) : M unit :=
  λ w, match send (ReqSetDocument SETTINGS_COLLECTION (idOf doc)) w with
       | (Some e, w') => (Rejected e, w')
       | (None, w') =>
           let stored := settingsDocs w' !! idOf doc in
           if staleObj doc stored then (Rejected StaleWrite, w')
           else (Resolved (),
                 {| timeEntries := timeEntries w';
                    settingsDocs :=
                      <[idOf doc := <["__etag" := nextToken stored]> doc]>
                        (settingsDocs w');
                    faults := faults w';
                    requests := requests w';
                    managerCached := managerCached w';
                    sdkFault := sdkFault w' |})
       end.

Section MoreService.
Context `{JsRuntime}.

(** [saveSettings] *)
Definition saveSettings (settings : SettingsObj) : M SettingsObj :=
  getDataManager;;
  currentSettings ← getSettings;
  let newSettings :=
    <["id" := JStr SETTINGS_DOC_ID]> (spread currentSettings settings) in
  setSettingsDocument newSettings;;
  mret newSettings.

(** [getTimeEntryForWorkItem] *)
Definition getTimeEntryForWorkItem (workItemId : number) (userId : string)
    (now : string) : M (option Doc) :=
  let id := generateId workItemId userId in
  getTimeEntry id now.

(** [entry.workItemId === workItemId] for a number [workItemId]: strict
    equality holds between numbers only, by IEEE comparison. *)
Definition strictEqualsNumber (v : option JsVal) (n : number) : bool :=
  match v with
  | Some (JNum x) => PrimFloat.eqb x n
  | _ => false
  end.

(** [getTimeEntriesForWorkItem] *)
Definition getTimeEntriesForWorkItem (workItemId : number) (now : string)
  : M (list Doc) :=
  allEntries ← getAllTimeEntries now;
  mret (List.filter
          (λ entry, strictEqualsNumber (doc_workItemId entry) workItemId)
          allEntries).

(** [getTotalHoursForWorkItem] *)
Definition getTotalHoursForWorkItem (workItemId : number) (now : string)
  : M number :=
  entries ← getTimeEntriesForWorkItem workItemId now;
  mret (foldl (λ sum entry, (sum + sumHours (doc_logs entry))%float)
          0%float entries).

End MoreService.

(** ** Further functions of the report page *)




Section MoreReports.
Context `{JsRuntime}.




(** [resetFilters]: the controls it leaves and the value it assigns to
    [filteredLogs]; the work item id control is not among those it clears. *)
Definition resetFilters (inputs : FilterInputs) (flatLogs : list FlatLog)
  : FilterInputs * list FlatLog :=
  let cleared :=
    {| filterStartDate := "";
       filterEndDate := "";
       filterUser := "";
       filterWorkItemType := "";
       filterWorkItemId := filterWorkItemId inputs |} in
  (cleared, applyFilters cleared flatLogs).

End MoreReports.

(** A text without hyphen. *)
Fixpoint hyphenFree (s : string) : bool :=
  match s with
  | EmptyString => true
  | String c rest => negb (Ascii.eqb c "-"%char) && hyphenFree rest
  end.

(** A call on the pair of [legacyExample]. *)
Definition legacyEntry (date : string) (hours : number) : EntryInput :=
  {| in_workItemId := 7%float;
     in_workItemTitle := Some "Old task";
     in_workItemType := Some "Task";
     in_projectId := "proj";
     in_projectName := None;
     in_logs := [];
     in_description := "";
     in_userId := "u2";
     in_userName := Some "Bob";
     in_hours := hours;
     in_date := date |}.

(** A world in which the SDK hands out no data manager. *)
Definition worldWithoutSdk : World :=
  {| timeEntries := {[ "time-entry-42-u1" := storedExample ]};
     settingsDocs := ∅;
     faults := [];
     requests := [];
     managerCached := false;
     sdkFault := Some SdkFailure |}.

(** What [getSettings] reads in a world where it holds a data manager. *)
Definition settingsRead (w : World) : SettingsObj :=
  match faultAt 0 w with
  | Some _ => DEFAULT_SETTINGS
  | None =>
      match settingsDocs w !! SETTINGS_DOC_ID with
      | Some stored => spread DEFAULT_SETTINGS stored
      | None => DEFAULT_SETTINGS
      end
  end.

(** A world with stored settings (a key of their own beside the increment)
    in which the store answers. *)
Definition worldWithSettings : World :=
  {| timeEntries := ∅;
     settingsDocs :=
       {[ SETTINGS_DOC_ID :=
            {[ "id" := JStr SETTINGS_DOC_ID;
               "hourIncrement" := JNum 0.25%float;
               "theme" := JStr "dark";
               "__etag" := JNum 3%float ]} ]};
     faults := [];
     requests := [];
     managerCached := false;
     sdkFault := None |}.

(** *** Vocabulary of the report page *)



Section ServiceCells.
Context `{JsRuntime}.

(** The cells the export of the service is meant to carry for a record that
    has a work item id, in column order. *)
Definition entryCells (entry : Doc) : list string :=
  [ from_option JsVal_toString "" (doc_workItemId entry);
    or_string (doc_workItemTitle entry) "";
    or_string (doc_workItemType entry) "";
    Number_toString (sumHours (doc_logs entry));
    or_string (doc_userName entry) (doc_userId entry);
    doc_description entry;
    default "" (doc_updatedAt entry) ].

(** The record has a work item id, and its cells that the export writes
    without quotes are plain. *)
Definition plainEntry (entry : Doc) : Prop :=
  is_Some (doc_workItemId entry) ∧
  plain (from_option JsVal_toString "" (doc_workItemId entry)) = true ∧
  plain (or_string (doc_workItemType entry) "") = true ∧
  plain (Number_toString (sumHours (doc_logs entry))) = true ∧
  plain (or_string (doc_userName entry) (doc_userId entry)) = true ∧
  plain (default "" (doc_updatedAt entry)) = true.

End ServiceCells.

(** * Properties *)

Section SettingsProperties.


Lemma faultAt_0 (w : World) : faultAt 0 w = nextFault w.
Proof. unfold faultAt, nextFault. by destruct (faults w) as [|[e|] fs]. Qed.

Lemma lookup_spread (defaults stored : SettingsObj) (key : string) :
  spread defaults stored !! key =
    match stored !! key with
    | Some v => Some v
    | None => defaults !! key
    end.
Proof.
  unfold spread. rewrite lookup_union.
  destruct (stored !! key), (defaults !! key); done.
Qed.



End SettingsProperties.

Section WorldLemmas.
Context `{JsRuntime}.

Lemma getDataManager_unfold (w : World) :
  managerAvailable w →
  getDataManager w = (Resolved (), afterRequests w [] 0).
Proof.
  intros Hm. unfold getDataManager, afterRequests.
  destruct w as [te sd fs rq mc sf]; cbn in *.
  rewrite app_nil_r. destruct mc; [done|].
  destruct Hm as [Hm | Hm]; cbn in Hm; [done|]. by subst.
Qed.

Lemma managerAvailable_afterRequests (w : World) rs n :
  managerAvailable (afterRequests w rs n).
Proof. by left. Qed.

(** [getTimeEntry] never rejects once a data manager is held: any error of
    the store is turned into [null]. *)
Lemma getTimeEntry_unfold (id now : string) (w : World) :
  managerAvailable w →
  getTimeEntry id now w =
    (Resolved (match faultAt 0 w with
               | Some _ => None
               | None => normalize now <$> timeEntries w !! id
               end),
     afterRequests w [ReqGetDocument COLLECTION_NAME id] 1).
Proof.
  intros Hm. unfold getTimeEntry, mbind, M_bind, bind.
  rewrite (getDataManager_unfold w Hm).
  unfold try_catch, getDocument, send, nextFault, faultAt, afterRequests.
  destruct w as [te sd fs rq mc sf]; cbn.
  rewrite app_nil_r.
  destruct fs as [|[e|] fs]; cbn; try done;
    destruct (te !! id); cbn; done.
Qed.

(** The whole of [setTimeEntry], once a data manager can be had: one read
    whose failure is absorbed, the assembly of the document, one write whose
    failure is passed on. *)
Lemma setTimeEntry_unfold (entry : EntryInput) (comment : option string)
    (now : string) (w : World) :
  managerAvailable w →
  let id := generateId (in_workItemId entry) (in_userId entry) in
  let rs := [ReqGetDocument COLLECTION_NAME id;
             ReqSetDocument COLLECTION_NAME id] in
  let existingEntry :=
    match faultAt 0 w with
    | Some _ => None
    | None => normalize now <$> timeEntries w !! id
    end in
  let timeEntry := buildTimeEntry entry comment now existingEntry in
  setTimeEntry entry comment now w =
    match faultAt 1 w with
    | Some e => (Rejected e, afterRequests w rs 2)
    | None =>
        if stale (doc_etag timeEntry) (timeEntries w !! id)
        then (Rejected StaleWrite, afterRequests w rs 2)
        else (Resolved timeEntry,
              with_timeEntries (afterRequests w rs 2)
                (<[id := with_etag timeEntry
                           (Some (next_etag (timeEntries w !! id)))]>
                   (timeEntries w)))
    end.
Proof.
  intros Hm id rs existingEntry timeEntry.
  unfold setTimeEntry, mbind, M_bind, bind.
  rewrite (getDataManager_unfold w Hm).
  rewrite getTimeEntry_unfold by apply managerAvailable_afterRequests.
  fold id. 
  assert (Hex : match faultAt 0 (afterRequests w [] 0) with
                | Some _ => None
                | None => normalize now <$> timeEntries (afterRequests w [] 0) !! id
                end = existingEntry) by (by destruct w).
  rewrite Hex. fold timeEntry.
  unfold setDocument, send, nextFault, faultAt, afterRequests, with_timeEntries.
  change (doc_id timeEntry) with id.
  clear Hex. clearbody timeEntry existingEntry.
  destruct w as [te sd fs rq mc sf]; cbn.
  rewrite app_nil_r, <- app_assoc. cbn.
  destruct fs as [|f1 [|[e|] fs]]; cbn; try done;
    destruct (stale (doc_etag timeEntry) (te !! id)); done.
Qed.

End WorldLemmas.

Section LogLemmas.

Lemma upsertLog_nil date hours :
  upsertLog date hours [] = [ {| log_date := date; log_hours := hours |} ].
Proof. reflexivity. Qed.

Lemma upsertLog_cons date hours l logs :
  upsertLog date hours (l :: logs) =
    if decide (log_date l = date)
    then {| log_date := log_date l; log_hours := hours |} :: logs
    else l :: upsertLog date hours logs.
Proof.
  unfold upsertLog. cbn. case_decide; [done|].
  destruct (list_find _ logs) as [[i x]|] eqn:Hf; cbn; [|done].
  by destruct (_ !! i).
Qed.

Lemma hoursOn_cons date l logs :
  hoursOn date (l :: logs) =
    if decide (log_date l = date) then Some (log_hours l) else hoursOn date logs.
Proof.
  unfold hoursOn. cbn. case_decide; [done|].
  by destruct (list_find _ logs) as [[i x]|].
Qed.

Lemma hoursOn_None date logs :
  hoursOn date logs = None ↔ date ∉ log_date <$> logs.
Proof.
  induction logs as [|l logs IH].
  { split; [intros _; apply not_elem_of_nil | done]. }
  rewrite hoursOn_cons, fmap_cons, not_elem_of_cons.
  case_decide as Hl.
  - split; [done|]. intros [Hne _]. by destruct Hne.
  - rewrite IH. split; [intros ?; split; [congruence|done] | by intros [_ ?]].
Qed.

Lemma hoursOn_upsertLog date hours date' logs :
  hoursOn date' (upsertLog date hours logs) =
    if decide (date = date') then Some hours else hoursOn date' logs.
Proof.
  induction logs as [|l logs IH].
  - rewrite upsertLog_nil, hoursOn_cons. cbn. by case_decide.
  - rewrite upsertLog_cons. destruct (decide (log_date l = date)) as [Hl|Hl].
    + rewrite !hoursOn_cons. cbn. rewrite Hl. by case_decide.
    + rewrite !hoursOn_cons, IH. repeat case_decide; congruence.
Qed.

Lemma dates_upsertLog date hours logs :
  log_date <$> upsertLog date hours logs =
    if decide (date ∈ log_date <$> logs)
    then log_date <$> logs
    else (log_date <$> logs) ++ [date].
Proof.
  induction logs as [|l logs IH].
  - rewrite upsertLog_nil. case_decide as Hin; [by apply not_elem_of_nil in Hin|done].
  - rewrite upsertLog_cons. destruct (decide (log_date l = date)) as [Hl|Hl].
    + rewrite !fmap_cons. cbn. rewrite decide_True; [done|]. rewrite Hl. by left.
    + rewrite !fmap_cons, IH.
      destruct (decide (date ∈ log_date <$> logs)).
      * rewrite decide_True; [done|]. by right.
      * rewrite decide_False; [done|]. rewrite not_elem_of_cons. done.
Qed.

Lemma length_upsertLog_present date hours logs :
  date ∈ log_date <$> logs →
  length (upsertLog date hours logs) = length logs.
Proof.
  intros Hin. rewrite <- !(length_fmap log_date), dates_upsertLog.
  by rewrite decide_True.
Qed.

Lemma NoDup_upsertLog date hours logs :
  NoDup (log_date <$> logs) → NoDup (log_date <$> upsertLog date hours logs).
Proof.
  intros Hnd. rewrite dates_upsertLog. case_decide; [done|].
  apply NoDup_app. split_and!; [done| |apply NoDup_singleton].
  intros x Hx ->%list_elem_of_singleton. done.
Qed.

Lemma hoursOn_elem_of l logs :
  NoDup (log_date <$> logs) → l ∈ logs →
  hoursOn (log_date l) logs = Some (log_hours l).
Proof.
  induction logs as [|l' logs IH]; intros Hnd Hin.
  - by apply not_elem_of_nil in Hin.
  - rewrite fmap_cons in Hnd. apply NoDup_cons in Hnd as [Hnotin Hnd].
    rewrite hoursOn_cons. apply elem_of_cons in Hin as [->|Hin].
    + by rewrite decide_True.
    + rewrite decide_False; [by apply IH|].
      intros Heq. apply Hnotin. rewrite Heq. by apply list_elem_of_fmap_2.
Qed.

End LogLemmas.
Section BuildLemmas.
Context `{JsRuntime}.

Lemma doc_id_buildTimeEntry entry comment now existing :
  doc_id (buildTimeEntry entry comment now existing) =
    generateId (in_workItemId entry) (in_userId entry).
Proof. reflexivity. Qed.

Lemma doc_logs_buildTimeEntry entry comment now existing :
  doc_logs (buildTimeEntry entry comment now existing) =
    Some (upsertLog (in_date entry) (in_hours entry)
            (default [] (existing ≫= doc_logs))).
Proof.
  unfold buildTimeEntry, upsertLog, findIndex, setHoursAt. cbn.
  replace (match existing with Some e => default [] (doc_logs e) | None => [] end)
    with (default [] (existing ≫= doc_logs)) by (by destruct existing).
  by destruct (list_find _ _) as [[i l]|].
Qed.

(** The audit event of a call, in the words of the data model. *)
Lemma doc_auditLog_buildTimeEntry entry comment now existing :
  doc_auditLog (buildTimeEntry entry comment now existing) =
    Some (default [] (existing ≫= doc_auditLog) ++
          [ {| audit_timestamp := now;
               audit_userId := in_userId entry;
               audit_userName := or_string (in_userName entry) (in_userId entry);
               audit_action := match existing with Some _ => updated | None => created end;
               audit_previousHours :=
                 Some (default 0%float
                         (hoursOn (in_date entry)
                            (default [] (existing ≫= doc_logs))));
               audit_newHours := in_hours entry;
               audit_notes := or_undefined comment |} ]).
Proof.
  unfold buildTimeEntry, hoursOn, findIndex, setHoursAt. cbn.
  replace (match existing with Some e => default [] (doc_logs e) | None => [] end)
    with (default [] (existing ≫= doc_logs)) by (by destruct existing).
  replace (match existing with Some e => default [] (doc_auditLog e) | None => [] end)
    with (default [] (existing ≫= doc_auditLog)) by (by destruct existing).
  destruct (list_find _ _) as [[i l]|] eqn:Hfind; cbn; [|done].
  apply list_find_Some in Hfind as (Hi & _ & _). rewrite Hi.
  rewrite list_lookup_insert_eq by (by eapply lookup_lt_Some). done.
Qed.

Lemma doc_etag_buildTimeEntry entry comment now existing :
  doc_etag (buildTimeEntry entry comment now existing) = existing ≫= doc_etag.
Proof. by destruct existing. Qed.

Lemma doc_logs_normalize now d logs :
  doc_logs d = Some logs → doc_logs (normalize now d) = Some logs.
Proof.
  intros Hl. unfold normalize, normalizeWorkItemId, migrateLegacy. rewrite Hl.
  by destruct (doc_workItemId d).
Qed.

Lemma doc_auditLog_normalize now d :
  doc_auditLog (normalize now d) = doc_auditLog d.
Proof.
  unfold normalize, normalizeWorkItemId, migrateLegacy.
  destruct (doc_logs d), (doc_hours d), (doc_workItemId d); done.
Qed.

Lemma doc_etag_normalize now d : doc_etag (normalize now d) = doc_etag d.
Proof.
  unfold normalize, normalizeWorkItemId, migrateLegacy.
  destruct (doc_logs d), (doc_hours d), (doc_workItemId d); done.
Qed.

Lemma doc_createdAt_normalize now d :
  doc_createdAt (normalize now d) = doc_createdAt d.
Proof.
  unfold normalize, normalizeWorkItemId, migrateLegacy.
  destruct (doc_logs d), (doc_hours d), (doc_workItemId d); done.
Qed.

(** The token read from the store is never stale when it is written back
    before anyone else writes. *)
Lemma stale_buildTimeEntry entry comment now stored :
  stale (doc_etag (buildTimeEntry entry comment now (normalize now <$> stored)))
    stored = false.
Proof.
  rewrite doc_etag_buildTimeEntry. destruct stored as [d|]; [|done].
  cbn. rewrite doc_etag_normalize. unfold stale.
  destruct (doc_etag d) as [t|]; [|done]. by rewrite bool_decide_eq_true_2.
Qed.

End BuildLemmas.

Section RunLemmas.
Context `{JsRuntime}.

Lemma reliable_faultAt (w : World) n : reliable w → faultAt n w = None.
Proof. intros [_ Hf]. unfold faultAt. by rewrite Hf. Qed.

(** A call in a reliable world goes through and leaves a reliable world. *)
Lemma setTimeEntry_reliable (c : Call) (w : World) :
  reliable w →
  let id := generateId (in_workItemId (call_entry c)) (in_userId (call_entry c)) in
  let stored := timeEntries w !! id in
  ∃ w',
    setTimeEntry (call_entry c) (call_comment c) (call_now c) w =
      (Resolved (buildTimeEntry (call_entry c) (call_comment c) (call_now c)
                   (normalize (call_now c) <$> stored)), w') ∧
    reliable w' ∧
    timeEntries w' = <[id := storedAfter c stored]> (timeEntries w).
Proof.
  intros Hr id stored. pose proof Hr as [Hm Hf].
  rewrite setTimeEntry_unfold by done.
  rewrite !reliable_faultAt by done. fold id. fold stored.
  rewrite stale_buildTimeEntry.
  eexists. split; [reflexivity|]. split; [|done].
  split; [by left|]. cbn. rewrite Hf. done.
Qed.

Lemma replay_app calls1 calls2 stored :
  replay (calls1 ++ calls2) stored = replay calls2 (replay calls1 stored).
Proof. apply foldl_app. Qed.

Lemma replay_snoc calls c stored :
  replay (calls ++ [c]) stored = Some (storedAfter c (replay calls stored)).
Proof. by rewrite replay_app. Qed.

Lemma length_replayReturns calls stored :
  length (replayReturns calls stored) = length calls.
Proof.
  revert stored. induction calls as [|c calls IH]; intros stored; [done|].
  cbn. by rewrite IH.
Qed.

Lemma replayReturns_lookup calls stored k c :
  calls !! k = Some c →
  replayReturns calls stored !! k =
    Some (buildTimeEntry (call_entry c) (call_comment c) (call_now c)
            (normalize (call_now c) <$> replay (take k calls) stored)).
Proof.
  revert stored k. induction calls as [|c' calls IH]; intros stored k Hk; [done|].
  destruct k as [|k]; cbn in *.
  - by simplify_eq.
  - by rewrite (IH _ _ Hk).
Qed.

Lemma samePair_app wid uid calls1 calls2 :
  samePair wid uid (calls1 ++ calls2) ↔
  samePair wid uid calls1 ∧ samePair wid uid calls2.
Proof. apply Forall_app. Qed.

Lemma samePair_take wid uid calls k :
  samePair wid uid calls → samePair wid uid (take k calls).
Proof. apply Forall_take. Qed.

(** Calls awaited one after the other in a reliable world all go through;
    what they return and what the store holds afterwards is given by
    [replayReturns] and [replay]. *)
Lemma runCalls_reliable wid uid (calls : list Call) (w : World) :
  reliable w → samePair wid uid calls →
  let id := generateId wid uid in
  ∃ w',
    runCalls calls w =
      (Resolved (replayReturns calls (timeEntries w !! id)), w') ∧
    reliable w' ∧
    timeEntries w' !! id = replay calls (timeEntries w !! id) ∧
    (∀ j, j ≠ id → timeEntries w' !! j = timeEntries w !! j).
Proof.
  intros Hr Hsame id. revert w Hr.
  induction calls as [|c calls IH]; intros w Hr.
  - exists w. done.
  - apply Forall_cons in Hsame as [[Hwid Huid] Hsame].
    destruct (setTimeEntry_reliable c w Hr) as (w1 & Hset & Hr1 & Hte1).
    rewrite Hwid, Huid in Hset, Hte1. fold id in Hset, Hte1.
    destruct (IH Hsame w1 Hr1) as (w2 & Hrun & Hr2 & Hid & Hother).
    exists w2. destruct c as [[entry comment] now].
    unfold call_entry, call_comment, call_now in Hset. cbn [fst snd] in Hset.
    cbn [runCalls replayReturns]. unfold mbind, M_bind, bind.
    rewrite Hset, Hrun.
    rewrite Hte1, lookup_insert_eq in *.
    split_and!; [done|done|done|].
    intros j Hj. rewrite Hother by done. by rewrite lookup_insert_ne.
Qed.

End RunLemmas.

Section ReplayLemmas.
Context `{JsRuntime}.

Lemma logsOf_normalize now record :
  hasLogs record → logsOf (normalize now <$> record) = logsOf record.
Proof.
  intros Hl. destruct record as [d|]; [|done].
  destruct (Hl d eq_refl) as [logs Hlogs].
  unfold logsOf. cbn. by rewrite (doc_logs_normalize now d logs Hlogs), Hlogs.
Qed.

Lemma auditLogOf_normalize now record :
  auditLogOf (normalize now <$> record) = auditLogOf record.
Proof.
  destruct record as [d|]; [|done].
  unfold auditLogOf. cbn. by rewrite doc_auditLog_normalize.
Qed.

Lemma hasLogs_None : hasLogs None.
Proof. by intros d. Qed.

Lemma hasLogs_storedAfter c record : hasLogs (Some (storedAfter c record)).
Proof.
  intros d [= <-]. unfold storedAfter. cbn [with_etag doc_logs].
  rewrite doc_logs_buildTimeEntry. eauto.
Qed.

Lemma hasLogs_replay calls record :
  hasLogs record → hasLogs (replay calls record).
Proof.
  intros Hl. destruct calls as [|c calls _] using rev_ind; [done|].
  rewrite replay_snoc. apply hasLogs_storedAfter.
Qed.

Lemma logsOf_storedAfter c record :
  hasLogs record →
  logsOf (Some (storedAfter c record)) =
    upsertLog (call_date c) (call_hours c) (logsOf record).
Proof.
  intros Hl. unfold storedAfter, logsOf at 1. cbn [mbind option_bind with_etag doc_logs].
  rewrite doc_logs_buildTimeEntry. cbn [default].
  by rewrite <- (logsOf_normalize (call_now c) record Hl).
Qed.

Lemma logsOf_replay calls record :
  hasLogs record →
  logsOf (replay calls record) = writesTo calls (logsOf record).
Proof.
  intros Hl. induction calls as [|c calls IH] using rev_ind; [done|].
  rewrite replay_snoc, logsOf_storedAfter by (by apply hasLogs_replay).
  unfold writesTo. by rewrite foldl_snoc, IH.
Qed.

Lemma auditLogOf_storedAfter c record :
  auditLogOf (Some (storedAfter c record)) =
    auditLogOf record ++
      [eventOf c (bool_decide (record = None))
         (hoursOn (call_date c) (logsOf (normalize (call_now c) <$> record)))].
Proof.
  unfold storedAfter, auditLogOf at 1.
  cbn [mbind option_bind with_etag doc_auditLog].
  rewrite doc_auditLog_buildTimeEntry. cbn [default].
  fold (auditLogOf (normalize (call_now c) <$> record)).
  rewrite auditLogOf_normalize. by destruct record.
Qed.

(** The audit log only grows, by one event per call. *)
Lemma auditLogOf_replay calls record :
  ∃ events,
    auditLogOf (replay calls record) = auditLogOf record ++ events ∧
    length events = length calls.
Proof.
  induction calls as [|c calls (events & IH & Hlen)] using rev_ind.
  - exists []. by rewrite app_nil_r.
  - rewrite replay_snoc, auditLogOf_storedAfter, IH, <- app_assoc.
    eexists. split; [reflexivity|]. rewrite !length_app, Hlen. done.
Qed.

Lemma NoDup_writesTo calls logs :
  NoDup (log_date <$> logs) → NoDup (log_date <$> writesTo calls logs).
Proof.
  intros Hnd. induction calls as [|c calls IH] using rev_ind; [done|].
  unfold writesTo. rewrite foldl_snoc. by apply NoDup_upsertLog.
Qed.

Lemma dates_writesTo calls logs :
  list_to_set (log_date <$> writesTo calls logs) =@{gset string}
    list_to_set (log_date <$> logs) ∪ list_to_set (call_date <$> calls).
Proof.
  induction calls as [|c calls IH] using rev_ind.
  - cbn. by rewrite (right_id_L ∅ (∪)).
  - unfold writesTo. rewrite foldl_snoc. fold (writesTo calls logs).
    rewrite dates_upsertLog, fmap_app, list_to_set_app_L. cbn.
    rewrite (right_id_L ∅ (∪)), (assoc_L (∪)), <- IH.
    case_decide as Hin.
    + apply (elem_of_list_to_set (C:=gset string)) in Hin.
      symmetry. rewrite (comm_L (∪)). apply subseteq_union_1_L.
      by intros x ->%elem_of_singleton.
    + rewrite list_to_set_app_L. cbn. by rewrite (right_id_L ∅ (∪)).
Qed.

Lemma hoursOn_writesTo date calls logs :
  hoursOn date (writesTo calls logs) =
    foldl (λ acc c, if decide (call_date c = date)
                    then Some (call_hours c) else acc)
      (hoursOn date logs) calls.
Proof.
  induction calls as [|c calls IH] using rev_ind; [done|].
  unfold writesTo. rewrite !foldl_snoc. fold (writesTo calls logs).
  by rewrite hoursOn_upsertLog, IH.
Qed.

Lemma hoursOn_writesTo_nil date calls :
  hoursOn date (writesTo calls []) = lastWritten date calls.
Proof. apply hoursOn_writesTo. Qed.

End ReplayLemmas.

Section AggregatorProperties.
Context `{JsRuntime}.

Lemma last_replayReturns calls c stored :
  last (replayReturns (calls ++ [c]) stored) =
    Some (buildTimeEntry (call_entry c) (call_comment c) (call_now c)
            (normalize (call_now c) <$> replay calls stored)).
Proof.
  rewrite last_lookup, length_replayReturns, length_app, Nat.add_1_r. cbn.
  rewrite (replayReturns_lookup _ _ _ c) by (by rewrite lookup_app_r, Nat.sub_diag).
  by rewrite take_app_length.
Qed.

(** What the last call returns carries the logs and the audit log that the
    store holds afterwards. *)
Lemma last_replayReturns_stored calls stored d :
  last (replayReturns calls stored) = Some d →
  doc_logs d = replay calls stored ≫= doc_logs ∧
  doc_auditLog d = replay calls stored ≫= doc_auditLog.
Proof.
  destruct calls as [|c calls _] using rev_ind; [done|].
  rewrite last_replayReturns, replay_snoc. intros [= <-]. done.
Qed.

(** C1. Calls for one (workItemId, userId) pair, awaited one after the other
    on a store that answers, starting with no record for the pair: all go
    through, and the record then stored (and returned by the last call) has
    at most one log per date, as many logs as distinct dates were written,
    each log carrying the hours most recently written for its date, and a
    log for every date written. *)
Theorem setTimeEntry_one_log_per_date (workItemId : number) (userId : string)
    (calls : list Call) (w : World) :
  reliable w →
  samePair workItemId userId calls →
  timeEntries w !! generateId workItemId userId = None →
  ∃ returned w',
    runCalls calls w = (Resolved returned, w') ∧
    length returned = length calls ∧
    let logs := logsAt (generateId workItemId userId) w' in
    NoDup (log_date <$> logs) ∧
    length logs = distinctDates calls ∧
    (∀ l, l ∈ logs → lastWritten (log_date l) calls = Some (log_hours l)) ∧
    (∀ c, c ∈ calls → call_date c ∈ log_date <$> logs) ∧
    (∀ d, last returned = Some d → default [] (doc_logs d) = logs).
Proof.
  intros Hr Hsame Hfresh.
  destruct (runCalls_reliable _ _ calls w Hr Hsame) as (w' & Hrun & _ & Hid & _).
  rewrite Hfresh in Hrun, Hid.
  eexists _, w'. split; [exact Hrun|]. split; [apply length_replayReturns|].
  unfold logsAt. rewrite Hid, logsOf_replay by apply hasLogs_None.
  change (logsOf None) with (@nil TimeLog).
  assert (Hnd : NoDup (log_date <$> writesTo calls [])).
  { apply NoDup_writesTo. cbn. apply NoDup_nil_2. }
  assert (Hdates : list_to_set (log_date <$> writesTo calls []) =@{gset string}
                   list_to_set (call_date <$> calls)).
  { rewrite dates_writesTo. cbn. apply (left_id_L ∅ (∪)). }
  cbn zeta. split_and!.
  - done.
  - unfold distinctDates. rewrite <- Hdates, size_list_to_set by done.
    by rewrite length_fmap.
  - intros l Hl. rewrite <- hoursOn_writesTo_nil. by apply hoursOn_elem_of.
  - intros c Hc. apply (elem_of_list_to_set (C:=gset string)).
    rewrite Hdates. apply elem_of_list_to_set. by apply list_elem_of_fmap_2.
  - intros d Hd. apply last_replayReturns_stored in Hd as [-> _].
    fold (logsOf (replay calls None)).
    by rewrite logsOf_replay by apply hasLogs_None.
Qed.

(** C2. Calls targeting one record, awaited one after the other on a store
    that answers: the audit log grows by exactly one event per call, and the
    audit log after the first [k] calls is a prefix of the audit log after
    all of them, whatever the dates and hours of the calls. For a record
    created by these calls the audit log has as many events as calls. *)
Theorem setTimeEntry_audit_append_only (workItemId : number) (userId : string)
    (calls : list Call) (w : World) :
  reliable w →
  samePair workItemId userId calls →
  let id := generateId workItemId userId in
  ∃ returned w',
    runCalls calls w = (Resolved returned, w') ∧
    length (auditLogAt id w') = length (auditLogAt id w) + length calls ∧
    (timeEntries w !! id = None → length (auditLogAt id w') = length calls) ∧
    (∀ k, k ≤ length calls →
       ∃ returned_k w_k,
         runCalls (take k calls) w = (Resolved returned_k, w_k) ∧
         auditLogAt id w_k =
           take (length (auditLogAt id w) + k) (auditLogAt id w')) ∧
    (∀ d, last returned = Some d →
       default [] (doc_auditLog d) = auditLogAt id w').
Proof.
  intros Hr Hsame id.
  destruct (runCalls_reliable _ _ calls w Hr Hsame) as (w' & Hrun & _ & Hid & _).
  fold id in Hrun, Hid.
  eexists _, w'. split; [exact Hrun|].
  unfold auditLogAt. rewrite Hid.
  destruct (auditLogOf_replay calls (timeEntries w !! id)) as (events & Hev & Hlen).
  split_and!.
  - by rewrite Hev, length_app, Hlen.
  - intros Hnone. rewrite Hev, Hnone, length_app, Hlen. done.
  - intros k Hk.
    destruct (runCalls_reliable _ _ (take k calls) w Hr
                (samePair_take _ _ _ k Hsame)) as (wk & Hrunk & _ & Hidk & _).
    fold id in Hrunk, Hidk.
    eexists _, wk. split; [exact Hrunk|]. rewrite Hidk.
    destruct (auditLogOf_replay (take k calls) (timeEntries w !! id))
      as (events_k & Hevk & Hlenk).
    rewrite length_take_le in Hlenk by done.
    rewrite <- (take_drop k calls) at 2. rewrite replay_app.
    destruct (auditLogOf_replay (drop k calls) (replay (take k calls) (timeEntries w !! id)))
      as (rest & -> & _).
    rewrite take_app_length'; [done|]. rewrite Hevk, length_app. lia.
  - intros d Hd. apply last_replayReturns_stored in Hd as [_ ->]. done.
Qed.

Lemma replay_eq_None calls :
  replay calls None = None ↔ calls = [].
Proof.
  destruct calls as [|c calls _] using rev_ind; [done|].
  rewrite replay_snoc. split; [done|]. by intros ?%app_nil_r_inv.
Qed.

(** The audit log of a record created by the calls, event by event. *)
Lemma auditLogOf_replay_fresh calls :
  auditLogOf (replay calls None) =
    imap (λ k c, eventOf c (bool_decide (k = 0))
                   (lastWritten (call_date c) (take k calls))) calls.
Proof.
  induction calls as [|c calls IH] using rev_ind; [done|].
  rewrite replay_snoc, auditLogOf_storedAfter, IH, imap_app. cbn.
  rewrite Nat.add_0_r, take_app_length. f_equal.
  - apply imap_ext. intros k c' Hk. cbn.
    by rewrite take_app_le by (apply Nat.lt_le_incl; by eapply lookup_lt_Some).
  - rewrite logsOf_normalize by apply hasLogs_replay, hasLogs_None.
    rewrite logsOf_replay by apply hasLogs_None.
    change (logsOf None) with (@nil TimeLog). rewrite hoursOn_writesTo_nil.
    do 2 f_equal. apply bool_decide_ext.
    rewrite replay_eq_None. split; [by intros -> | by intros ?%length_zero_iff_nil].
Qed.

(** C3. For a pair that has no record yet, on a store that answers: the
    [k]-th call appends the event with action created for the first call and
    updated for every later one, with previousHours the hours last written
    for its date by the earlier calls (0 if none) and newHours the hours it
    writes. In particular two calls for the same date leave the single log of
    that date with the hours of the second call, and the audit log
    [created 0 -> h1; updated h1 -> h2]. *)
Theorem setTimeEntry_created_then_updated (workItemId : number)
    (userId : string) (calls : list Call) (w : World) :
  reliable w →
  samePair workItemId userId calls →
  timeEntries w !! generateId workItemId userId = None →
  let id := generateId workItemId userId in
  ∃ returned w',
    runCalls calls w = (Resolved returned, w') ∧
    auditLogAt id w' =
      imap (λ k c, eventOf c (bool_decide (k = 0))
                     (lastWritten (call_date c) (take k calls))) calls ∧
    (∀ d, last returned = Some d →
       default [] (doc_logs d) = logsAt id w' ∧
       default [] (doc_auditLog d) = auditLogAt id w') ∧
    (∀ c1 c2, calls = [c1; c2] → call_date c1 = call_date c2 →
       logsAt id w' =
         [ {| log_date := call_date c1; log_hours := call_hours c2 |} ] ∧
       auditLogAt id w' =
         [ eventOf c1 true None; eventOf c2 false (Some (call_hours c1)) ]).
Proof.
  intros Hr Hsame Hfresh id.
  destruct (runCalls_reliable _ _ calls w Hr Hsame) as (w' & Hrun & _ & Hid & _).
  fold id in Hrun, Hid, Hfresh. rewrite Hfresh in Hrun, Hid.
  eexists _, w'. split; [exact Hrun|].
  unfold auditLogAt, logsAt. rewrite Hid, auditLogOf_replay_fresh.
  split_and!.
  - done.
  - intros d Hd. apply last_replayReturns_stored in Hd as [-> ->].
    split; [done|]. fold (auditLogOf (replay calls None)).
    apply auditLogOf_replay_fresh.
  - intros c1 c2 -> Hdate.
    rewrite logsOf_replay by apply hasLogs_None. split.
    + change (logsOf None) with (@nil TimeLog). unfold writesTo. cbn [foldl].
      rewrite upsertLog_nil, upsertLog_cons. cbn [log_date].
      by rewrite decide_True.
    + cbn. unfold lastWritten. cbn. by rewrite decide_True.
Qed.

Lemma or_string_truthy (t d : string) : t ≠ "" → or_string (Some t) d = t.
Proof. by destruct t. Qed.


(** C6, as the code has it. A failure of the store on the final write
    rejects the call with that failure, after one read request and one write
    request and with the stored documents untouched. A failure of the store
    on the read of the existing record is absorbed by [getTimeEntry]: the
    call goes on as for a pair without record and, if the write is
    answered, resolves with the document of a first creation, which replaces
    whatever was stored. *)
Theorem setTimeEntry_store_failures (entry : EntryInput)
    (comment : option string) (now : string) (w : World) :
  managerAvailable w →
  let id := generateId (in_workItemId entry) (in_userId entry) in
  let rs := [ReqGetDocument COLLECTION_NAME id;
             ReqSetDocument COLLECTION_NAME id] in
  (∀ e, faultAt 1 w = Some e →
     setTimeEntry entry comment now w = (Rejected e, afterRequests w rs 2)) ∧
  (∀ e, faultAt 0 w = Some e → faultAt 1 w = None →
     let timeEntry := buildTimeEntry entry comment now None in
     setTimeEntry entry comment now w =
       (Resolved timeEntry,
        with_timeEntries (afterRequests w rs 2)
          (<[id := with_etag timeEntry
                     (Some (next_etag (timeEntries w !! id)))]>
             (timeEntries w)))).
Proof.
  intros Hm id rs. split.
  - intros e He. rewrite setTimeEntry_unfold by done. by rewrite He.
  - intros e He Hw timeEntry. rewrite setTimeEntry_unfold by done.
    by rewrite He, Hw.
Qed.

(** A failure of the SDK to hand out a data manager rejects the call before
    any request is sent. *)
Lemma setTimeEntry_sdk_failure entry comment now w e :
  managerCached w = false → sdkFault w = Some e →
  setTimeEntry entry comment now w = (Rejected e, w).
Proof.
  intros Hc Hs. unfold setTimeEntry, mbind, M_bind, bind, getDataManager.
  by rewrite Hc, Hs.
Qed.

End AggregatorProperties.

Section MoreAggregatorProperties.
Context `{JsRuntime}.

(** X8. The invariant of the logs is kept from any record of the multi-log shape
    that has it, not only from a pair without record. *)
Lemma setTimeEntry_preserves_one_log_per_date (workItemId : number)
    (userId : string) (calls : list Call) (w : World) :
  reliable w →
  samePair workItemId userId calls →
  let id := generateId workItemId userId in
  hasLogs (timeEntries w !! id) →
  NoDup (log_date <$> logsAt id w) →
  ∃ returned w',
    runCalls calls w = (Resolved returned, w') ∧
    logsAt id w' = writesTo calls (logsAt id w) ∧
    NoDup (log_date <$> logsAt id w') ∧
    (∀ c, c ∈ calls →
       hoursOn (call_date c) (logsAt id w') = lastWritten (call_date c) calls).
Proof.
  intros Hr Hsame id Hlogs Hnd.
  destruct (runCalls_reliable _ _ calls w Hr Hsame) as (w' & Hrun & _ & Hid & _).
  fold id in Hrun, Hid.
  eexists _, w'. split; [exact Hrun|].
  unfold logsAt in *. rewrite Hid, logsOf_replay by done.
  split_and!; [done|by apply NoDup_writesTo|].
  intros c Hc. rewrite hoursOn_writesTo. unfold lastWritten.
  generalize (hoursOn (call_date c) (logsOf (timeEntries w !! id))).
  revert Hc. clear. induction calls as [|c' calls IH] using rev_ind.
  - by intros ?%not_elem_of_nil.
  - intros Hc prior. rewrite !foldl_snoc.
    destruct (decide (call_date c' = call_date c)) as [|Hne]; [done|].
    apply IH. apply elem_of_app in Hc as [Hc|Hc]; [done|].
    apply list_elem_of_singleton in Hc. by subst.
Qed.

Lemma createdAt_replayReturns calls stored t :
  doc_createdAt stored = Some t → t ≠ "" →
  Forall (λ d, doc_createdAt d = Some t) (replayReturns calls (Some stored)).
Proof.
  revert stored. induction calls as [|c calls IH]; intros stored Ht Hne; [done|].
  assert (Hc : doc_createdAt
                 (buildTimeEntry (call_entry c) (call_comment c) (call_now c)
                    (normalize (call_now c) <$> Some stored)) = Some t).
  { cbn. rewrite doc_createdAt_normalize, Ht. by rewrite or_string_truthy. }
  cbn [replayReturns]. constructor; [exact Hc|].
  apply IH; [|done]. exact Hc.
Qed.

(** X7. createdAt is set once: every call of a run that starts without record
    returns the reading of the clock of the first call as createdAt. *)
Lemma setTimeEntry_createdAt_set_once (workItemId : number) (userId : string)
    (first : Call) (rest : list Call) (w : World) :
  reliable w →
  samePair workItemId userId (first :: rest) →
  timeEntries w !! generateId workItemId userId = None →
  call_now first ≠ "" →
  ∃ returned w',
    runCalls (first :: rest) w = (Resolved returned, w') ∧
    Forall (λ d, doc_createdAt d = Some (call_now first)) returned.
Proof.
  intros Hr Hsame Hfresh Hnow.
  destruct (runCalls_reliable _ _ _ w Hr Hsame) as (w' & Hrun & _).
  rewrite Hfresh in Hrun.
  eexists _, w'. split; [exact Hrun|].
  cbn [replayReturns]. constructor; [done|].
  by apply createdAt_replayReturns.
Qed.

End MoreAggregatorProperties.

Lemma reliable_freshWorld : reliable freshWorld.
Proof. split; [by right | done]. Qed.

Lemma samePair_threeCalls : samePair 42%float "u1" threeCalls.
Proof. repeat constructor. Qed.

Lemma samePair_twoCalls : samePair 42%float "u1" twoCalls.
Proof. repeat constructor. Qed.

Lemma setTimeEntry_one_log_per_date_witness :
  reliable freshWorld ∧
  samePair 42%float "u1" threeCalls ∧
  timeEntries freshWorld !! @generateId exampleRuntime 42%float "u1" = None ∧
  ∃ returned w',
    @runCalls exampleRuntime threeCalls freshWorld = (Resolved returned, w') ∧
    length returned = 3 ∧
    NoDup (log_date <$> logsAt "time-entry-42-u1" w') ∧
    length (logsAt "time-entry-42-u1" w') = 2.
Proof.
  split; [exact reliable_freshWorld|].
  split; [exact samePair_threeCalls|].
  split; [reflexivity|].
  destruct (@setTimeEntry_one_log_per_date exampleRuntime 42%float "u1"
              threeCalls freshWorld reliable_freshWorld samePair_threeCalls
              eq_refl)
    as (returned & w' & Hrun & Hlen & Hnd & Hsize & _).
  exists returned, w'. split_and!; [exact Hrun|exact Hlen|exact Hnd|exact Hsize].
Defined.

Lemma setTimeEntry_audit_append_only_witness :
  reliable freshWorld ∧
  samePair 42%float "u1" threeCalls ∧
  ∃ returned w',
    @runCalls exampleRuntime threeCalls freshWorld = (Resolved returned, w') ∧
    length (auditLogAt "time-entry-42-u1" w') = 3 ∧
    ∃ returned_2 w_2,
      @runCalls exampleRuntime twoCalls freshWorld = (Resolved returned_2, w_2) ∧
      auditLogAt "time-entry-42-u1" w_2 = take 2 (auditLogAt "time-entry-42-u1" w').
Proof.
  split; [exact reliable_freshWorld|].
  split; [exact samePair_threeCalls|].
  destruct (@setTimeEntry_audit_append_only exampleRuntime 42%float "u1"
              threeCalls freshWorld reliable_freshWorld samePair_threeCalls)
    as (returned & w' & Hrun & Hlen & _ & Hprefix & _).
  exists returned, w'. split_and!; [exact Hrun|exact Hlen|].
  exact (Hprefix 2 (le_S _ _ (le_n 2))).
Defined.

Lemma setTimeEntry_created_then_updated_witness :
  reliable freshWorld ∧
  samePair 42%float "u1" twoCalls ∧
  timeEntries freshWorld !! @generateId exampleRuntime 42%float "u1" = None ∧
  ∃ returned w',
    @runCalls exampleRuntime twoCalls freshWorld = (Resolved returned, w') ∧
    logsAt "time-entry-42-u1" w' =
      [ {| log_date := "2024-01-01"; log_hours := 5%float |} ] ∧
    auditLogAt "time-entry-42-u1" w' =
      [ {| audit_timestamp := "2024-01-01T09:00:00.000Z";
           audit_userId := "u1";
           audit_userName := "Ann";
           audit_action := created;
           audit_previousHours := Some 0%float;
           audit_newHours := 3%float;
           audit_notes := None |};
        {| audit_timestamp := "2024-01-01T17:00:00.000Z";
           audit_userId := "u1";
           audit_userName := "Ann";
           audit_action := updated;
           audit_previousHours := Some 3%float;
           audit_newHours := 5%float;
           audit_notes := Some "more" |} ].
Proof.
  split; [exact reliable_freshWorld|].
  split; [exact samePair_twoCalls|].
  split; [reflexivity|].
  destruct (@setTimeEntry_created_then_updated exampleRuntime 42%float "u1"
              twoCalls freshWorld reliable_freshWorld samePair_twoCalls eq_refl)
    as (returned & w' & Hrun & _ & _ & Htwo).
  destruct (Htwo _ _ eq_refl eq_refl) as [Hlogs Haudit].
  exists returned, w'. split_and!; [exact Hrun|exact Hlogs|exact Haudit].
Defined.

Lemma storedExample_after_first_call :
  timeEntries
    (@setTimeEntry exampleRuntime (exampleEntry "2024-01-01" 3%float) None
       "2024-01-01T09:00:00.000Z" freshWorld).2
  = timeEntries (worldWithRecord []).
Proof. vm_compute. reflexivity. Qed.


Lemma setTimeEntry_store_failures_witness :
  managerAvailable (worldWithRecord [None; Some StaleWrite]) ∧
  faultAt 1 (worldWithRecord [None; Some StaleWrite]) = Some StaleWrite ∧
  (@setTimeEntry exampleRuntime (exampleEntry "2024-01-02" 2.5%float) None
     "2024-01-02T17:00:00.000Z" (worldWithRecord [None; Some StaleWrite])).1
    = Rejected StaleWrite ∧
  managerAvailable (worldWithRecord [Some StoreUnavailable]) ∧
  faultAt 0 (worldWithRecord [Some StoreUnavailable]) = Some StoreUnavailable ∧
  faultAt 1 (worldWithRecord [Some StoreUnavailable]) = None ∧
  (@setTimeEntry exampleRuntime (exampleEntry "2024-01-02" 2.5%float) None
     "2024-01-02T17:00:00.000Z" (worldWithRecord [Some StoreUnavailable])).1
    = Resolved (@buildTimeEntry exampleRuntime
                  (exampleEntry "2024-01-02" 2.5%float) None
                  "2024-01-02T17:00:00.000Z" None).
Proof.
  split; [by left|]. split; [reflexivity|].
  split.
  { destruct (@setTimeEntry_store_failures exampleRuntime
                (exampleEntry "2024-01-02" 2.5%float) None
                "2024-01-02T17:00:00.000Z"
                (worldWithRecord [None; Some StaleWrite]) (or_introl eq_refl))
      as [Hwrite _].
    by rewrite (Hwrite StaleWrite eq_refl). }
  split; [by left|]. split; [reflexivity|]. split; [reflexivity|].
  destruct (@setTimeEntry_store_failures exampleRuntime
              (exampleEntry "2024-01-02" 2.5%float) None
              "2024-01-02T17:00:00.000Z"
              (worldWithRecord [Some StoreUnavailable]) (or_introl eq_refl))
    as [_ Hread].
  by rewrite (Hread StoreUnavailable eq_refl eq_refl).
Defined.

(** C6 as the specification states it does not hold on the read: the store is unreachable when the
    existing record is read, and the call resolves as if nothing had
    happened, after one read request and one write request. *)
Lemma setTimeEntry_read_failure_resolves :
  faultAt 0 worldReadDown = Some StoreUnavailable ∧
  ∃ timeEntry,
    (@setTimeEntry exampleRuntime (exampleEntry "2024-01-01" 3%float) None
       "2024-01-01T09:00:00.000Z" worldReadDown).1 = Resolved timeEntry ∧
    requests
      (@setTimeEntry exampleRuntime (exampleEntry "2024-01-01" 3%float) None
         "2024-01-01T09:00:00.000Z" worldReadDown).2
    = [ ReqGetDocument "TimeEntries" "time-entry-42-u1";
        ReqSetDocument "TimeEntries" "time-entry-42-u1" ].
Proof.
  split; [reflexivity|]. eexists. split; [reflexivity|]. vm_compute. reflexivity.
Qed.

(** ** The read paths *)

Section ReadProperties.
Context `{JsRuntime}.

Lemma migrateLegacy_has_logs now doc logs :
  doc_logs doc = Some logs → migrateLegacy now doc = doc.
Proof. intros Hl. unfold migrateLegacy. by rewrite Hl. Qed.

Lemma migrateLegacy_synthesized now doc :
  doc_logs doc = None → is_Some (doc_hours doc) →
  is_Some (doc_logs (migrateLegacy now doc)).
Proof.
  intros Hl [hours Hh]. unfold migrateLegacy. rewrite Hl, Hh. cbn. eauto.
Qed.

Lemma migrateLegacy_nothing_to_do now doc :
  doc_hours doc = None → migrateLegacy now doc = doc.
Proof.
  intros Hh. unfold migrateLegacy. rewrite Hh. by destruct (doc_logs doc).
Qed.

Lemma migrateLegacy_twice now now' doc :
  migrateLegacy now' (migrateLegacy now doc) = migrateLegacy now doc.
Proof.
  destruct (doc_logs doc) as [logs|] eqn:Hl.
  { by rewrite !(migrateLegacy_has_logs _ doc logs Hl). }
  destruct (doc_hours doc) as [hours|] eqn:Hh.
  - destruct (migrateLegacy_synthesized now doc Hl) as [logs Hlogs]; [by eauto|].
    by apply migrateLegacy_has_logs with logs.
  - by rewrite !(migrateLegacy_nothing_to_do _ doc Hh).
Qed.

Lemma normalizeWorkItemId_twice doc :
  normalizeWorkItemId (normalizeWorkItemId doc) = normalizeWorkItemId doc.
Proof.
  destruct (doc_workItemId doc) as [v|] eqn:Hw.
  - unfold normalizeWorkItemId at 2. rewrite Hw.
    unfold normalizeWorkItemId. cbn. rewrite Hw. done.
  - unfold normalizeWorkItemId. by rewrite !Hw.
Qed.

Lemma migrateLegacy_normalizeWorkItemId now doc :
  migrateLegacy now (normalizeWorkItemId doc) =
    normalizeWorkItemId (migrateLegacy now doc).
Proof.
  unfold migrateLegacy, normalizeWorkItemId.
  destruct (doc_workItemId doc) eqn:Hw, (doc_logs doc) eqn:Hl,
    (doc_hours doc) eqn:Hh; cbn; rewrite ?Hw, ?Hl, ?Hh; done.
Qed.

Lemma normalize_twice now now' doc :
  normalize now' (normalize now doc) = normalize now doc.
Proof.
  unfold normalize.
  by rewrite migrateLegacy_normalizeWorkItemId, migrateLegacy_twice,
    normalizeWorkItemId_twice.
Qed.

Lemma or_string_timestampOf doc t now :
  timestampOf doc = Some t →
  or_string (doc_updatedAt doc) (or_string (doc_createdAt doc) now) = t.
Proof.
  unfold timestampOf, or_undefined, or_string.
  destruct (doc_updatedAt doc) as [u|]; [destruct (truthy_string u)|];
    try (destruct (doc_createdAt doc) as [c|]; [destruct (truthy_string c)|]);
    congruence.
Qed.

(** C7. The legacy migration is idempotent (also across two readings of the
    clock); it returns a document that has a logs array as it is; for a
    legacy document without logs array whose scalar hours is a number (other
    than NaN and negative zero, which a stored document does not carry) and
    which has an updatedAt or createdAt timestamp, it synthesizes the single
    log of that timestamp cut to its first ten characters with those hours.
    The whole normalization of a read (migration and workItemId) is
    idempotent as well. *)
Theorem migrateLegacy_idempotent :
  (∀ now now' doc,
     migrateLegacy now' (migrateLegacy now doc) = migrateLegacy now doc) ∧
  (∀ now doc logs,
     doc_logs doc = Some logs → migrateLegacy now doc = doc) ∧
  (∀ now doc h t,
     doc_logs doc = None →
     doc_hours doc = Some (JNum h) →
     truthy_number h = true ∨ h = 0%float →
     timestampOf doc = Some t →
     doc_logs (migrateLegacy now doc) =
       Some [ {| log_date := slice_0_10 t; log_hours := h |} ]) ∧
  (∀ now now' doc,
     normalize now' (normalize now doc) = normalize now doc).
Proof.
  split_and!.
  - intros. apply migrateLegacy_twice.
  - intros. by eapply migrateLegacy_has_logs.
  - intros now doc h t Hl Hh Hnum Ht. unfold migrateLegacy. rewrite Hl, Hh. cbn.
    rewrite (or_string_timestampOf doc t now Ht).
    do 3 f_equal. unfold or_number.
    destruct Hnum as [-> | ->]; done.
  - intros. apply normalize_twice.
Qed.

Lemma elem_of_map_to_list_snd (m : gmap string Doc) id doc :
  m !! id = Some doc → doc ∈ (map_to_list m).*2.
Proof.
  intros Hm. apply list_elem_of_fmap. exists (id, doc).
  split; [done|]. by apply elem_of_map_to_list.
Qed.

Lemma normalize_workItemId_numeric now doc :
  doc_workItemId (normalize now doc) = None ∨
  ∃ x, doc_workItemId (normalize now doc) = Some (JNum x).
Proof.
  unfold normalize, normalizeWorkItemId.
  destruct (doc_workItemId (migrateLegacy now doc)) eqn:Hw; [right|left]; eauto.
Qed.

(** C8. [getAllTimeEntries] never rejects once it holds a data manager: on
    any failure of the store it resolves with the empty sequence; when the
    store answers it resolves with every stored document, each with the
    legacy migration applied and its workItemId turned into a number. *)
Theorem getAllTimeEntries_fails_soft (now : string) (w : World) :
  managerAvailable w →
  ∃ entries w',
    getAllTimeEntries now w = (Resolved entries, w') ∧
    (∀ e, faultAt 0 w = Some e → entries = []) ∧
    (faultAt 0 w = None →
       entries =
         (λ doc, normalizeWorkItemId (migrateLegacy now doc))
           <$> (map_to_list (timeEntries w)).*2 ∧
       length entries = size (timeEntries w) ∧
       (∀ id doc, timeEntries w !! id = Some doc →
          normalizeWorkItemId (migrateLegacy now doc) ∈ entries) ∧
       (∀ entry, entry ∈ entries →
          doc_workItemId entry = None ∨
          ∃ x, doc_workItemId entry = Some (JNum x))).
Proof.
  intros Hm. rewrite faultAt_0.
  unfold getAllTimeEntries, mbind, M_bind, bind.
  rewrite (getDataManager_unfold w Hm).
  unfold try_catch, getDocuments, send.
  change (nextFault (afterRequests w [] 0)) with (nextFault w).
  destruct (nextFault w) as [e|] eqn:Hn.
  - eexists _, _. split; [reflexivity|]. split; [done|]. intros; discriminate.
  - cbn [timeEntries afterRequests].
    set (documents := (map_to_list (timeEntries w)).*2).
    exists ((λ doc, normalizeWorkItemId (migrateLegacy now doc)) <$> documents).
    eexists.
    split; [by destruct documents|].
    split; [intros; discriminate|]. intros _.
    split_and!.
    + done.
    + unfold documents. by rewrite !length_fmap, length_map_to_list.
    + intros id doc Hd.
      apply (list_elem_of_fmap_2
               (λ doc, normalizeWorkItemId (migrateLegacy now doc))).
      by apply elem_of_map_to_list_snd with id.
    + intros entry (doc & -> & _)%list_elem_of_fmap.
      apply normalize_workItemId_numeric.
Qed.

End ReadProperties.

Lemma migrateLegacy_idempotent_witness :
  doc_logs legacyExample = None ∧
  doc_hours legacyExample = Some (JNum 4%float) ∧
  (truthy_number 4%float = true ∨ 4%float = 0%float) ∧
  timestampOf legacyExample = Some "2023-05-06T10:11:12.000Z" ∧
  doc_logs (@migrateLegacy exampleRuntime "2024-01-01T00:00:00.000Z" legacyExample) =
    Some [ {| log_date := "2023-05-06"; log_hours := 4%float |} ] ∧
  @migrateLegacy exampleRuntime "2025-01-01T00:00:00.000Z"
    (@migrateLegacy exampleRuntime "2024-01-01T00:00:00.000Z" legacyExample) =
  @migrateLegacy exampleRuntime "2024-01-01T00:00:00.000Z" legacyExample.
Proof.
  destruct (@migrateLegacy_idempotent exampleRuntime) as (Htwice & _ & Hsynth & _).
  split; [reflexivity|]. split; [reflexivity|].
  split; [left; reflexivity|]. split; [reflexivity|].
  split.
  - exact (Hsynth "2024-01-01T00:00:00.000Z" legacyExample 4%float
             "2023-05-06T10:11:12.000Z" eq_refl eq_refl (or_introl eq_refl) eq_refl).
  - apply Htwice.
Defined.

Lemma getAllTimeEntries_fails_soft_witness :
  managerAvailable (worldWithLegacy [Some StoreUnavailable]) ∧
  faultAt 0 (worldWithLegacy [Some StoreUnavailable]) = Some StoreUnavailable ∧
  (∃ w',
     @getAllTimeEntries exampleRuntime "2024-01-01T00:00:00.000Z"
       (worldWithLegacy [Some StoreUnavailable]) = (Resolved [], w')) ∧
  managerAvailable (worldWithLegacy []) ∧
  faultAt 0 (worldWithLegacy []) = None ∧
  (∃ entries w',
     @getAllTimeEntries exampleRuntime "2024-01-01T00:00:00.000Z"
       (worldWithLegacy []) = (Resolved entries, w') ∧
     length entries = 2 ∧
     @normalizeWorkItemId exampleRuntime
       (@migrateLegacy exampleRuntime "2024-01-01T00:00:00.000Z" legacyExample)
       ∈ entries).
Proof.
  split; [by right|]. split; [reflexivity|].
  split.
  { destruct (@getAllTimeEntries_fails_soft exampleRuntime
                "2024-01-01T00:00:00.000Z"
                (worldWithLegacy [Some StoreUnavailable]) (or_intror eq_refl))
      as (entries & w' & Hget & Hfail & _).
    exists w'. by rewrite <- (Hfail StoreUnavailable eq_refl). }
  split; [by right|]. split; [reflexivity|].
  destruct (@getAllTimeEntries_fails_soft exampleRuntime
              "2024-01-01T00:00:00.000Z" (worldWithLegacy []) (or_intror eq_refl))
    as (entries & w' & Hget & _ & Hok).
  destruct (Hok eq_refl) as (_ & Hlen & Hall & _).
  exists entries, w'. split_and!; [exact Hget|exact Hlen|].
  apply (Hall "time-entry-7-u2"). reflexivity.
Defined.

(** ** The report page *)

Section ReportProperties.
Context `{JsRuntime}.

Lemma ltb_false_le (a b : string) : String.ltb a b = false ↔ (b ≤ a)%string.
Proof.
  unfold String.le, String.ltb, String.leb.
  rewrite (String.compare_antisym a b).
  destruct (b ?= a)%string; cbn; intuition congruence.
Qed.

Lemma and_then_or_undefined (c : option string) (test : string → bool) :
  and_then (or_undefined c) test = false ↔
  whenProvided (c ≫= provided) (λ v, test v = false).
Proof.
  destruct c as [[|a v]|]; cbn; [done| |done].
  unfold provided. rewrite decide_False by done. done.
Qed.

Lemma keepLog_satisfies (inputs : FilterInputs) (row : FlatLog) :
  keepLog
    {| startDate := or_undefined (Some (filterStartDate inputs));
       endDate := or_undefined (Some (filterEndDate inputs));
       userId := or_undefined (Some (filterUser inputs));
       workItemType := or_undefined (Some (filterWorkItemType inputs)) |}
    (or_undefined (filterWorkItemId inputs)) row = true
  ↔ satisfies (criteriaOf inputs) row.
Proof.
  unfold keepLog, satisfies, criteriaOf. cbn [startDate endDate userId workItemType
    fromDate toDate byUserId byWorkItemType byWorkItemId].
  pose proof (and_then_or_undefined (Some (filterStartDate inputs))
                (λ s, String.ltb (row_date row) s)) as H1.
  pose proof (and_then_or_undefined (Some (filterEndDate inputs))
                (λ e, String.ltb e (row_date row))) as H2.
  pose proof (and_then_or_undefined (Some (filterUser inputs))
                (λ u, negb (bool_decide (row_userId row = u)))) as H3.
  pose proof (and_then_or_undefined (Some (filterWorkItemType inputs))
                (λ t, negb (bool_decide (row_workItemType row = Some t)))) as H4.
  pose proof (and_then_or_undefined (filterWorkItemId inputs)
                (λ i, negb (bool_decide
                              (Number_toString (row_workItemId row) = i)))) as H5.
  cbn [mbind option_bind] in H1, H2, H3, H4.
  assert (Hw : ∀ (c : option string) (test : string → bool) (P : string → Prop),
             (∀ v, test v = false ↔ P v) →
             whenProvided c (λ v, test v = false) ↔ whenProvided c P).
  { intros [v|] test P HP; cbn; [apply HP | done]. }
  rewrite (Hw _ _ (λ s, (s ≤ row_date row)%string)) in H1
    by (intros; apply ltb_false_le).
  rewrite (Hw _ _ (λ e, (row_date row ≤ e)%string)) in H2
    by (intros; apply ltb_false_le).
  rewrite (Hw _ _ (λ u, row_userId row = u)) in H3
    by (intros; rewrite negb_false_iff; apply bool_decide_eq_true).
  rewrite (Hw _ _ (λ t, row_workItemType row = Some t)) in H4
    by (intros; rewrite negb_false_iff; apply bool_decide_eq_true).
  rewrite (Hw _ _ (λ i, Number_toString (row_workItemId row) = i)) in H5
    by (intros; rewrite negb_false_iff; apply bool_decide_eq_true).
  rewrite <- H1, <- H2, <- H3, <- H4, <- H5.
  repeat match goal with
         | |- context [and_then ?c ?t] => destruct (and_then c t)
         end; intuition congruence.
Qed.

(** C5. The filter of the report page returns exactly the rows that satisfy
    all the provided criteria, in their order and with their multiplicity:
    the row's own date within the inclusive range (compared as strings),
    user id, work item type and work item id matching exactly; a criterion
    that is not provided imposes no constraint. *)
Theorem applyFilters_exact (inputs : FilterInputs) (flatLogs : list FlatLog) :
  applyFilters inputs flatLogs = filter (satisfies (criteriaOf inputs)) flatLogs ∧
  (∀ row, row ∈ applyFilters inputs flatLogs ↔
          row ∈ flatLogs ∧ satisfies (criteriaOf inputs) row).
Proof.
  assert (Heq : applyFilters inputs flatLogs =
                filter (satisfies (criteriaOf inputs)) flatLogs).
  { unfold applyFilters. induction flatLogs as [|row rows IH]; [done|].
    cbn [List.filter]. rewrite filter_cons, IH.
    pose proof (keepLog_satisfies inputs row) as Hk.
    destruct (keepLog _ _ row).
    - rewrite decide_True; [done|]. by apply Hk.
    - rewrite decide_False; [done|]. intros Hs. by apply Hk in Hs. }
  split; [exact Heq|].
  intros row. rewrite Heq, list_elem_of_filter. tauto.
Qed.

End ReportProperties.

(** Both ends of the date range are kept; the empty controls do not
    constrain. *)
Example applyFilters_inclusive_range :
  row_date <$>
    @applyFilters exampleRuntime
      {| filterStartDate := "2024-01-01";
         filterEndDate := "2024-01-31";
         filterUser := "";
         filterWorkItemType := "";
         filterWorkItemId := Some "42" |}
      [ exampleRow "2023-12-31" None "";
        exampleRow "2024-01-01" None "";
        exampleRow "2024-01-15" None "";
        exampleRow "2024-01-31" None "";
        exampleRow "2024-02-01" None "" ]
  = [ "2024-01-01"; "2024-01-15"; "2024-01-31" ].
Proof. vm_compute. reflexivity. Qed.

(** C4, where the export departs from it. A user display name with a comma is
    written to the line as it is, unquoted; a reader of CSV then finds seven
    fields in the line of a row that has six cells, and the display name cut
    in two. *)
Theorem exportToCSV_splits_user_name :
  @csvCells exampleRuntime (exampleRow "2024-01-01" (Some "Doe, John") "Pairing")
    = [ "#42"; "Bug"; "1.5"; "Doe, John"; "Pairing"; "2024-01-01" ] ∧
  readCSV <$>
    @exportToCSV exampleRuntime
      [ exampleRow "2024-01-01" (Some "Doe, John") "Pairing" ]
    = Some [ [ "Work Item"; "Type"; "Hours"; "User"; "Description"; "Date" ];
             [ "#42"; "Bug"; "1.5"; "Doe"; " John"; "Pairing"; "2024-01-01" ] ].
Proof. split; vm_compute; reflexivity. Qed.

(** The description, which the export does quote, is read back whole even
    with a comma, a quote and a line break in it. *)
Example exportToCSV_description_quoted :
  let description :=
    "a, b " +:+ String dquote ("c" +:+ String dquote (String newline "d")) in
  readCSV <$>
    @exportToCSV exampleRuntime [ exampleRow "2024-01-01" (Some "Ann") description ]
    = Some [ [ "Work Item"; "Type"; "Hours"; "User"; "Description"; "Date" ];
             [ "#42"; "Bug"; "1.5"; "Ann"; description; "2024-01-01" ] ].
Proof. vm_compute. reflexivity. Qed.

(** Under the store of the written specification (a write that carries no
    token is never stale), the read failure absorbed by [getTimeEntry] costs
    the record its earlier log and audit event. *)
Example setTimeEntry_read_failure_overwrites :
  logsAt "time-entry-42-u1" (worldWithRecord [Some StoreUnavailable])
    = [ {| log_date := "2024-01-01"; log_hours := 3%float |} ] ∧
  logsAt "time-entry-42-u1"
    (@setTimeEntry exampleRuntime (exampleEntry "2024-01-02" 2.5%float) None
       "2024-01-02T17:00:00.000Z" (worldWithRecord [Some StoreUnavailable])).2
    = [ {| log_date := "2024-01-02"; log_hours := 2.5%float |} ] ∧
  audit_action <$>
    auditLogAt "time-entry-42-u1"
      (@setTimeEntry exampleRuntime (exampleEntry "2024-01-02" 2.5%float) None
         "2024-01-02T17:00:00.000Z" (worldWithRecord [Some StoreUnavailable])).2
    = [ created ].
Proof. split_and!; vm_compute; reflexivity. Qed.

(** ** The export read back *)

Section CsvLemmas.

Lemma append_String (c : ascii) (s t : string) :
  String c s +:+ t = String c (s +:+ t).
Proof. reflexivity. Qed.

Lemma append_empty (t : string) : "" +:+ t = t.
Proof. reflexivity. Qed.

Lemma append_nil_r (s : string) : s +:+ "" = s.
Proof. induction s as [|c s IH]; [done|]. by rewrite append_String, IH. Qed.

Lemma append_assoc (a b c : string) : (a +:+ b) +:+ c = a +:+ (b +:+ c).
Proof. induction a as [|x a IH]; [done|]. by rewrite !append_String, IH. Qed.

Lemma rev_app_rev_app (a b c : string) :
  String.rev_app (String.rev_app a b) c = String.rev_app b (a +:+ c).
Proof.
  revert b c. induction a as [|x a IH]; intros b c; [done|].
  cbn [String.rev_app]. by rewrite IH, append_String.
Qed.

Lemma rev_rev_app (p : string) : String.rev (String.rev_app p "") = p.
Proof. unfold String.rev. rewrite rev_app_rev_app. apply append_nil_r. Qed.

Lemma readCSV_go_plain p st field record rest :
  plain p = true → st ≠ InQuoted →
  readCSV_go st field record (p +:+ rest) =
    readCSV_go (afterPlain st p) (String.rev_app p field) record rest.
Proof.
  revert st field. induction p as [|c p IH]; intros st field Hp Hst; [done|].
  cbn in Hp. apply andb_prop in Hp as [Hc Hp].
  unfold plainChar in Hc.
  apply andb_prop in Hc as [Hc Hnl]. apply andb_prop in Hc as [Hcomma Hq].
  apply negb_true_iff in Hnl, Hcomma, Hq.
  rewrite append_String. cbn [readCSV_go]. rewrite Hcomma, Hq, Hnl.
  assert (Hstep : readCSV_go InPlain (String c field) record (p +:+ rest) =
                  readCSV_go (afterPlain st (String c p))
                    (String.rev_app (String c p) field) record rest).
  { rewrite IH by done. cbn. by destruct p. }
  by destruct st.
Qed.

Lemma readCSV_go_comma st field record rest :
  st ≠ InQuoted →
  readCSV_go st field record (String comma rest) =
    readCSV_go FieldStart "" (String.rev field :: record) rest.
Proof. by destruct st. Qed.

Lemma readCSV_go_newline st field record rest :
  st ≠ InQuoted →
  readCSV_go st field record (String newline rest) =
    reverse (String.rev field :: record) :: readCSV_go FieldStart "" [] rest.
Proof. by destruct st. Qed.

Lemma readCSV_go_quoted d field record rest :
  readCSV_go InQuoted field record (doubleQuotes d +:+ String dquote rest) =
    readCSV_go AfterQuote (String.rev_app d field) record rest.
Proof.
  revert field. induction d as [|c d IH]; intros field.
  - done.
  - cbn [doubleQuotes]. destruct (Ascii.eqb c dquote) eqn:Hc.
    + apply Ascii.eqb_eq in Hc as ->. rewrite !append_String.
      cbn [readCSV_go]. change (Ascii.eqb dquote dquote) with true.
      cbn match. apply IH.
    + rewrite append_String. cbn [readCSV_go]. rewrite Hc. apply IH.
Qed.

Lemma afterPlain_not_quoted st p : st ≠ InQuoted → afterPlain st p ≠ InQuoted.
Proof. by destruct p. Qed.

(** A plain field that ends at a comma. *)
Lemma readCSV_go_plain_field p record rest :
  plain p = true →
  readCSV_go FieldStart "" record (p +:+ String comma rest) =
    readCSV_go FieldStart "" (p :: record) rest.
Proof.
  intros Hp. rewrite readCSV_go_plain by done.
  rewrite readCSV_go_comma by (by apply afterPlain_not_quoted).
  by rewrite rev_rev_app.
Qed.

(** A quoted field that ends at a comma. *)
Lemma readCSV_go_quoted_field d record rest :
  readCSV_go FieldStart "" record
    (String dquote (doubleQuotes d +:+ String dquote (String comma rest))) =
    readCSV_go FieldStart "" (d :: record) rest.
Proof.
  change (readCSV_go FieldStart "" record (String dquote ?s))
    with (readCSV_go InQuoted "" record s).
  rewrite readCSV_go_quoted, readCSV_go_comma by done.
  by rewrite rev_rev_app.
Qed.

End CsvLemmas.

Section ExportProperties.
Context `{JsRuntime}.

Lemma plain_hash_id (row : FlatLog) :
  plain (Number_toString (row_workItemId row)) = true →
  plain ("#" +:+ Number_toString (row_workItemId row)) = true.
Proof. intros Hp. rewrite append_String, append_empty. exact Hp. Qed.

Lemma csvLine_unfold (row : FlatLog) (rest : string) :
  csvLine row +:+ rest =
    ("#" +:+ Number_toString (row_workItemId row)) +:+ String comma
      (or_string (row_workItemType row) "-" +:+ String comma
         (Number_toString (row_hours row) +:+ String comma
            (or_string (row_userName row)
               (or_string (Some (row_userId row)) "-") +:+ String comma
               (String dquote
                  (doubleQuotes (row_description row) +:+
                     String dquote (String comma (row_date row +:+ rest))))))).
Proof.
  unfold csvLine. cbn [join].
  replace (or_string (Some (row_description row)) "") with (row_description row)
    by (by destruct (row_description row)).
  repeat (progress rewrite ?append_assoc, ?append_String, ?append_empty).
  done.
Qed.

(** The line of a row with plain cells, read up to the end of the line. *)
Lemma readCSV_go_csvLine (row : FlatLog) (rest : string) :
  plainRow row →
  readCSV_go FieldStart "" [] (csvLine row +:+ rest) =
    readCSV_go (afterPlain FieldStart (row_date row))
      (String.rev_app (row_date row) "")
      (reverse (take 5 (csvCells row))) rest.
Proof.
  intros (Hid & Htype & Hhours & Huser & Hdate).
  rewrite csvLine_unfold.
  rewrite readCSV_go_plain_field by (by apply plain_hash_id).
  rewrite !readCSV_go_plain_field by done.
  rewrite readCSV_go_quoted_field.
  by rewrite readCSV_go_plain by done.
Qed.

Lemma join_cons_cons (sep a b : string) (l : list string) :
  join sep (a :: b :: l) = a +:+ sep +:+ join sep (b :: l).
Proof. reflexivity. Qed.

Lemma readCSV_go_lines (rows : list FlatLog) :
  rows ≠ [] → Forall plainRow rows →
  readCSV_go FieldStart "" [] (join (String newline "") (csvLine <$> rows)) =
    csvCells <$> rows.
Proof.
  intros Hne Hall. induction rows as [|row rows IH]; [done|].
  apply Forall_cons in Hall as [Hrow Hall].
  destruct rows as [|row' rows].
  - change (join (String newline "") (csvLine <$> [row])) with (csvLine row).
    rewrite <- (append_nil_r (csvLine row)), readCSV_go_csvLine by done.
    cbn [readCSV_go]. by rewrite rev_rev_app.
  - rewrite (fmap_cons csvLine), (fmap_cons csvLine), join_cons_cons,
      <- (fmap_cons csvLine), (append_String newline ""), append_empty.
    rewrite readCSV_go_csvLine by done.
    rewrite readCSV_go_newline by (by apply afterPlain_not_quoted).
    rewrite rev_rev_app, IH by done. done.
Qed.

Lemma readCSV_header (rest : string) :
  readCSV ("Work Item,Type,Hours,User,Description,Date" +:+ String newline rest) =
    [ "Work Item"; "Type"; "Hours"; "User"; "Description"; "Date" ]
      :: readCSV_go FieldStart "" [] rest.
Proof. reflexivity. Qed.

(** X16. What the export does achieve: when the cells it writes without quotes
    are plain, the text is read back as the header and the cells of every
    row, whatever the description holds. *)
Theorem exportToCSV_round_trip_plain (rows : list FlatLog) :
  rows ≠ [] → Forall plainRow rows →
  readCSV <$> exportToCSV rows =
    Some ([ "Work Item"; "Type"; "Hours"; "User"; "Description"; "Date" ]
            :: (csvCells <$> rows)).
Proof.
  intros Hne Hall. unfold exportToCSV.
  destruct rows as [|row rows]; [done|].
  change (readCSV <$> Some ?text) with (Some (readCSV text)). f_equal.
  rewrite (fmap_cons csvLine), join_cons_cons, <- (fmap_cons csvLine).
  rewrite (append_String newline ""), append_empty, readCSV_header.
  by rewrite readCSV_go_lines.
Qed.

End ExportProperties.

(** The export of the service has the same gap: work item type and user name
    go to the line unquoted. *)
Example service_export_splits_user_name :
  let entry :=
    {| doc_id := doc_id storedExample;
       doc_workItemId := doc_workItemId storedExample;
       doc_workItemTitle := doc_workItemTitle storedExample;
       doc_workItemType := doc_workItemType storedExample;
       doc_projectId := doc_projectId storedExample;
       doc_projectName := doc_projectName storedExample;
       doc_logs := doc_logs storedExample;
       doc_hours := doc_hours storedExample;
       doc_date := doc_date storedExample;
       doc_description := doc_description storedExample;
       doc_userId := doc_userId storedExample;
       doc_userName := Some "Doe, John";
       doc_createdAt := doc_createdAt storedExample;
       doc_updatedAt := doc_updatedAt storedExample;
       doc_auditLog := doc_auditLog storedExample;
       doc_etag := doc_etag storedExample |} in
  readCSV <$> @TimeEntryService_exportToCSV exampleRuntime [entry]
    = Some [ [ "Work Item ID"; "Work Item Title"; "Type"; "Hours"; "User";
               "Description"; "Last Updated" ];
             [ "42"; "Fix login"; "Bug"; "3"; "Doe"; " John"; "";
               "2024-01-01T09:00:00.000Z" ] ].
Proof. vm_compute. reflexivity. Qed.

(** * Further properties *)

(** ** The aggregator and its store *)

Section FurtherAggregator.
Context `{JsRuntime}.

(** X1. A call sends one read request and one write request, whether it resolves
    or rejects, and touches no document other than the record of its pair:
    the other records and the settings are as before, and a rejected call
    leaves every record as before. *)
Theorem setTimeEntry_touches_one_record (entry : EntryInput)
    (comment : option string) (now : string) (w : World) :
  managerAvailable w →
  let id := generateId (in_workItemId entry) (in_userId entry) in
  ∀ r w', setTimeEntry entry comment now w = (r, w') →
    requests w' =
      requests w ++ [ReqGetDocument COLLECTION_NAME id;
                     ReqSetDocument COLLECTION_NAME id] ∧
    settingsDocs w' = settingsDocs w ∧
    (∀ j, j ≠ id → timeEntries w' !! j = timeEntries w !! j) ∧
    (∀ e, r = Rejected e → timeEntries w' = timeEntries w).
Proof.
  intros Hm id r w'. rewrite setTimeEntry_unfold by done. fold id.
  destruct (faultAt 1 w) as [e|].
  { intros [= <- <-]. done. }
  destruct (stale _ _).
  { intros [= <- <-]. done. }
  intros [= <- <-]. split_and!; [done|done| |done].
  intros j Hj. cbn. by rewrite lookup_insert_ne.
Qed.


(** X2. When the SDK cannot hand out a data manager, every method of the service
    rejects with that failure before any request is sent, the reads that
    otherwise degrade to a default included. *)
Theorem sdk_failure_rejects_every_method (w : World) (e : Error) :
  managerCached w = false → sdkFault w = Some e →
  (∀ entry comment now, setTimeEntry entry comment now w = (Rejected e, w)) ∧
  (∀ id now, getTimeEntry id now w = (Rejected e, w)) ∧
  (∀ now, getAllTimeEntries now w = (Rejected e, w)) ∧
  getSettings w = (Rejected e, w).
Proof.
  intros Hc Hs.
  assert (Hdm : getDataManager w = (Rejected e, w)).
  { unfold getDataManager. by rewrite Hc, Hs. }
  split_and!; intros;
    unfold setTimeEntry, getTimeEntry, getAllTimeEntries, getSettings,
      mbind, M_bind, bind; by rewrite Hdm.
Qed.

(** X3. Reading never writes: in any world, [getTimeEntry], [getAllTimeEntries]
    and [getSettings] leave every stored document as it is; in particular
    the migrated form of a legacy record is not stored. *)
Theorem reads_leave_documents (w : World) :
  (∀ id now,
     timeEntries (getTimeEntry id now w).2 = timeEntries w ∧
     settingsDocs (getTimeEntry id now w).2 = settingsDocs w) ∧
  (∀ now,
     timeEntries (getAllTimeEntries now w).2 = timeEntries w ∧
     settingsDocs (getAllTimeEntries now w).2 = settingsDocs w) ∧
  (timeEntries (getSettings w).2 = timeEntries w ∧
   settingsDocs (getSettings w).2 = settingsDocs w).
Proof.
  destruct w as [te sd fs rq mc sf].
  split; [|split].
  - intros id now.
    unfold getTimeEntry, mbind, M_bind, bind, try_catch, getDocument, send,
      nextFault, getDataManager.
    destruct mc; [|destruct sf]; cbn; try done;
      destruct fs as [|[e|] fs]; cbn; try done;
      destruct (te !! id); done.
  - intros now.
    unfold getAllTimeEntries, mbind, M_bind, bind, try_catch, getDocuments,
      send, nextFault, getDataManager.
    destruct mc; [|destruct sf]; cbn; try done;
      destruct fs as [|[e|] fs]; cbn; try done;
      destruct (map_to_list te).*2; done.
  - unfold getSettings, mbind, M_bind, bind, try_catch, getSettingsDocument,
      send, nextFault, getDataManager.
    destruct mc; [|destruct sf]; cbn; try done;
      destruct fs as [|[e|] fs]; cbn; try done;
      destruct (sd !! SETTINGS_DOC_ID); done.
Qed.

End FurtherAggregator.

Section FurtherAggregator2.
Context `{JsRuntime}.

Lemma hyphen_split (a b u v : string) :
  hyphenFree a = true → hyphenFree b = true →
  a +:+ "-" +:+ u = b +:+ "-" +:+ v → a = b ∧ u = v.
Proof.
  revert b. induction a as [|c a IH]; intros [|d b] Ha Hb Heq.
  - rewrite !append_empty in Heq. by simplify_eq.
  - rewrite append_empty, !append_String, append_empty in Heq.
    injection Heq as <- _. cbn in Hb. done.
  - rewrite append_empty, !append_String, append_empty in Heq.
    injection Heq as -> _. cbn in Ha. done.
  - rewrite !append_String in Heq. injection Heq as -> Heq.
    cbn in Ha, Hb. apply andb_prop in Ha as [_ Ha], Hb as [_ Hb].
    destruct (IH b Ha Hb Heq) as [-> ->]. done.
Qed.

(** X4. The record id tells the users of a work item apart, and tells apart any
    two pairs whose work item ids print without a hyphen (as non-negative
    integers do): equal ids mean equal printed work item id and equal user
    id. *)
Theorem generateId_injective :
  (∀ workItemId u v,
     generateId workItemId u = generateId workItemId v → u = v) ∧
  (∀ a b u v,
     hyphenFree (Number_toString a) = true →
     hyphenFree (Number_toString b) = true →
     generateId a u = generateId b v →
     Number_toString a = Number_toString b ∧ u = v).
Proof.
  unfold generateId. split.
  - intros workItemId u v Heq.
    apply (inj (String.append "time-entry-")) in Heq.
    apply (inj (String.append (Number_toString workItemId))) in Heq.
    by apply (inj (String.append "-")) in Heq.
  - intros a b u v Ha Hb Heq.
    apply (inj (String.append "time-entry-")) in Heq.
    by apply hyphen_split.
Qed.

Lemma normalize_storedAfter now c stored :
  normalize now (storedAfter c stored) = storedAfter c stored.
Proof. reflexivity. Qed.

(** X5. Read your write: after a call went through, asking for the entry of the
    same pair gives back the document the call returned, with the token the
    store stamped on it; the legacy migration has nothing to do on it. *)
Theorem getTimeEntryForWorkItem_after_setTimeEntry (entry : EntryInput)
    (comment : option string) (now now' : string) (w : World) :
  reliable w →
  let id := generateId (in_workItemId entry) (in_userId entry) in
  ∃ timeEntry w1 w2,
    setTimeEntry entry comment now w = (Resolved timeEntry, w1) ∧
    getTimeEntryForWorkItem (in_workItemId entry) (in_userId entry) now' w1 =
      (Resolved (Some (with_etag timeEntry
                         (Some (next_etag (timeEntries w !! id))))), w2).
Proof.
  intros Hr id.
  destruct (setTimeEntry_reliable (entry, comment, now) w Hr)
    as (w1 & Hset & Hr1 & Hte).
  unfold call_entry, call_comment, call_now in Hset, Hte. cbn [fst snd] in Hset, Hte.
  fold id in Hset, Hte.
  eexists _, w1, _. split; [exact Hset|].
  unfold getTimeEntryForWorkItem. fold id.
  rewrite getTimeEntry_unfold by apply Hr1.
  rewrite reliable_faultAt by done.
  rewrite Hte, lookup_insert_eq. cbn [fmap option_fmap option_map].
  by rewrite normalize_storedAfter.
Qed.

Lemma doc_logs_normalize_legacy now legacy h t :
  doc_logs legacy = None →
  doc_hours legacy = Some (JNum h) →
  truthy_number h = true ∨ h = 0%float →
  timestampOf legacy = Some t →
  doc_logs (normalize now legacy) =
    Some [ {| log_date := slice_0_10 t; log_hours := h |} ].
Proof.
  intros Hl Hh Hnum Ht.
  assert (Hm : doc_logs (migrateLegacy now legacy) =
               Some [ {| log_date := slice_0_10 t; log_hours := h |} ]).
  { unfold migrateLegacy. rewrite Hl, Hh. cbn.
    rewrite (or_string_timestampOf legacy t now Ht).
    do 3 f_equal. unfold or_number. destruct Hnum as [-> | ->]; done. }
  unfold normalize, normalizeWorkItemId.
  by destruct (doc_workItemId (migrateLegacy now legacy)).
Qed.

(** X6. The migration feeds the aggregator: the first call on a legacy record
    (scalar hours, no logs) keeps the legacy hours as the log of the date of
    the record's timestamp. A call for another date appends its log after
    it, with previous hours 0; a call for that date replaces the legacy
    hours and reports them as previous hours. Either way the event is an
    update, appended to whatever audit log the record had. *)
Theorem setTimeEntry_on_legacy_record (entry : EntryInput)
    (comment : option string) (now : string) (w : World)
    (legacy : Doc) (h : number) (t : string) :
  reliable w →
  timeEntries w !! generateId (in_workItemId entry) (in_userId entry)
    = Some legacy →
  doc_logs legacy = None →
  doc_hours legacy = Some (JNum h) →
  truthy_number h = true ∨ h = 0%float →
  timestampOf legacy = Some t →
  ∃ timeEntry w' event,
    setTimeEntry entry comment now w = (Resolved timeEntry, w') ∧
    doc_logs timeEntry =
      Some (if decide (slice_0_10 t = in_date entry)
            then [ {| log_date := in_date entry; log_hours := in_hours entry |} ]
            else [ {| log_date := slice_0_10 t; log_hours := h |};
                   {| log_date := in_date entry;
                      log_hours := in_hours entry |} ]) ∧
    doc_auditLog timeEntry =
      Some (default [] (doc_auditLog legacy) ++ [event]) ∧
    audit_action event = updated ∧
    audit_previousHours event =
      Some (if decide (slice_0_10 t = in_date entry) then h else 0%float) ∧
    audit_newHours event = in_hours entry.
Proof.
  intros Hr Hstored Hl Hh Hnum Ht.
  destruct (setTimeEntry_reliable (entry, comment, now) w Hr)
    as (w' & Hset & _ & _).
  unfold call_entry, call_comment, call_now in Hset. cbn [fst snd] in Hset.
  rewrite Hstored in Hset. cbn [fmap option_fmap option_map] in Hset.
  pose proof (doc_logs_normalize_legacy now legacy h t Hl Hh Hnum Ht) as Hlogs.
  eexists _, w', _. split; [exact Hset|].
  rewrite doc_logs_buildTimeEntry, doc_auditLog_buildTimeEntry.
  cbn [mbind option_bind]. rewrite Hlogs, doc_auditLog_normalize.
  cbn [default from_option id].
  rewrite upsertLog_cons, upsertLog_nil, hoursOn_cons. cbn [log_date log_hours].
  split_and!; [|reflexivity|reflexivity| |reflexivity].
  - by destruct (decide (slice_0_10 t = in_date entry)) as [->|].
  - cbn. by destruct (decide (slice_0_10 t = in_date entry)).
Qed.

End FurtherAggregator2.

Lemma setTimeEntry_touches_one_record_witness :
  managerAvailable (worldWithLegacy []) ∧
  timeEntries
    (@setTimeEntry exampleRuntime (exampleEntry "2024-01-02" 2.5%float) None
       "2024-01-02T17:00:00.000Z" (worldWithLegacy [])).2
    !! "time-entry-7-u2" = Some legacyExample.
Proof.
  split; [by right|].
  destruct (@setTimeEntry_touches_one_record exampleRuntime
              (exampleEntry "2024-01-02" 2.5%float) None
              "2024-01-02T17:00:00.000Z" (worldWithLegacy [])
              (or_intror eq_refl) _ _ (surjective_pairing _))
    as (_ & _ & Hother & _).
  assert (Hne : "time-entry-7-u2" ≠
                @generateId exampleRuntime
                  (in_workItemId (exampleEntry "2024-01-02" 2.5%float))
                  (in_userId (exampleEntry "2024-01-02" 2.5%float)))
    by (vm_compute; discriminate).
  etrans; [exact (Hother "time-entry-7-u2" Hne)|].
  vm_compute. reflexivity.
Defined.

Lemma sdk_failure_rejects_every_method_witness :
  managerCached worldWithoutSdk = false ∧
  sdkFault worldWithoutSdk = Some SdkFailure ∧
  @getAllTimeEntries exampleRuntime "2024-01-02T17:00:00.000Z" worldWithoutSdk
    = (Rejected SdkFailure, worldWithoutSdk) ∧
  getSettings worldWithoutSdk = (Rejected SdkFailure, worldWithoutSdk).
Proof.
  split; [reflexivity|]. split; [reflexivity|].
  destruct (@sdk_failure_rejects_every_method exampleRuntime worldWithoutSdk
              SdkFailure eq_refl eq_refl) as (_ & _ & Hall & Hsettings).
  split; [apply Hall | exact Hsettings].
Defined.

Lemma generateId_injective_witness :
  hyphenFree (@Number_toString exampleRuntime 42%float) = true ∧
  hyphenFree (@Number_toString exampleRuntime 42%float) = true ∧
  @generateId exampleRuntime 42%float "u1" = @generateId exampleRuntime 42%float "u1" ∧
  (@Number_toString exampleRuntime 42%float = @Number_toString exampleRuntime 42%float
   ∧ "u1" = "u1").
Proof.
  split; [reflexivity|]. split; [reflexivity|]. split; [reflexivity|].
  destruct (@generateId_injective exampleRuntime) as [_ Hinj].
  exact (Hinj 42%float 42%float "u1" "u1" eq_refl eq_refl eq_refl).
Defined.

Lemma getTimeEntryForWorkItem_after_setTimeEntry_witness :
  reliable freshWorld ∧
  ∃ timeEntry w1 w2,
    @setTimeEntry exampleRuntime (exampleEntry "2024-01-01" 3%float) None
      "2024-01-01T09:00:00.000Z" freshWorld = (Resolved timeEntry, w1) ∧
    @getTimeEntryForWorkItem exampleRuntime 42%float "u1"
      "2024-01-01T10:00:00.000Z" w1 =
      (Resolved (Some (with_etag timeEntry (Some 1%Z))), w2).
Proof.
  split; [exact reliable_freshWorld|].
  exact (@getTimeEntryForWorkItem_after_setTimeEntry exampleRuntime
           (exampleEntry "2024-01-01" 3%float) None
           "2024-01-01T09:00:00.000Z" "2024-01-01T10:00:00.000Z"
           freshWorld reliable_freshWorld).
Defined.

Lemma setTimeEntry_on_legacy_record_witness :
  reliable (worldWithLegacy []) ∧
  (timeEntries (worldWithLegacy [])
     !! @generateId exampleRuntime 7%float "u2" = Some legacyExample) ∧
  doc_logs legacyExample = None ∧
  doc_hours legacyExample = Some (JNum 4%float) ∧
  (truthy_number 4%float = true ∨ 4%float = 0%float) ∧
  timestampOf legacyExample = Some "2023-05-06T10:11:12.000Z" ∧
  ∃ timeEntry w',
    @setTimeEntry exampleRuntime (legacyEntry "2024-01-02" 2.5%float) None
      "2024-01-02T17:00:00.000Z" (worldWithLegacy []) = (Resolved timeEntry, w') ∧
    doc_logs timeEntry =
      Some [ {| log_date := "2023-05-06"; log_hours := 4%float |};
             {| log_date := "2024-01-02"; log_hours := 2.5%float |} ].
Proof.
  assert (Hr : reliable (worldWithLegacy [])) by (split; [by right|done]).
  split; [exact Hr|]. split; [reflexivity|]. split; [reflexivity|].
  split; [reflexivity|]. split; [left; reflexivity|]. split; [reflexivity|].
  destruct (@setTimeEntry_on_legacy_record exampleRuntime
              (legacyEntry "2024-01-02" 2.5%float) None
              "2024-01-02T17:00:00.000Z" (worldWithLegacy []) legacyExample
              4%float "2023-05-06T10:11:12.000Z" Hr eq_refl eq_refl eq_refl
              (or_introl eq_refl) eq_refl)
    as (timeEntry & w' & event & Hset & Hlogs & _).
  exists timeEntry, w'. split; [exact Hset|exact Hlogs].
Defined.

Lemma setTimeEntry_createdAt_set_once_witness :
  reliable freshWorld ∧
  samePair 42%float "u1" threeCalls ∧
  timeEntries freshWorld !! @generateId exampleRuntime 42%float "u1" = None ∧
  "2024-01-01T09:00:00.000Z" ≠ "" ∧
  ∃ returned w',
    @runCalls exampleRuntime threeCalls freshWorld = (Resolved returned, w') ∧
    Forall (λ d, doc_createdAt d = Some "2024-01-01T09:00:00.000Z") returned.
Proof.
  split; [exact reliable_freshWorld|]. split; [exact samePair_threeCalls|].
  split; [reflexivity|]. split; [discriminate|].
  exact (@setTimeEntry_createdAt_set_once exampleRuntime 42%float "u1"
           (exampleEntry "2024-01-01" 3%float, None, "2024-01-01T09:00:00.000Z")
           _ freshWorld reliable_freshWorld samePair_threeCalls eq_refl
           ltac:(discriminate)).
Defined.

Lemma setTimeEntry_preserves_one_log_per_date_witness :
  reliable (worldWithRecord []) ∧
  samePair 42%float "u1" threeCalls ∧
  hasLogs (timeEntries (worldWithRecord [])
             !! @generateId exampleRuntime 42%float "u1") ∧
  NoDup (log_date <$> logsAt (@generateId exampleRuntime 42%float "u1")
                        (worldWithRecord [])) ∧
  ∃ returned w',
    @runCalls exampleRuntime threeCalls (worldWithRecord []) =
      (Resolved returned, w') ∧
    logsAt (@generateId exampleRuntime 42%float "u1") w' =
      [ {| log_date := "2024-01-01"; log_hours := 5%float |};
        {| log_date := "2024-01-02"; log_hours := 2.5%float |} ].
Proof.
  assert (Hr : reliable (worldWithRecord [])) by (split; [by left|done]).
  assert (Hlk : timeEntries (worldWithRecord [])
                  !! @generateId exampleRuntime 42%float "u1"
                = Some storedExample) by (vm_compute; reflexivity).
  assert (Hl : hasLogs (timeEntries (worldWithRecord [])
                          !! @generateId exampleRuntime 42%float "u1")).
  { intros d Hd. rewrite Hlk in Hd. injection Hd as <-. by eexists. }
  assert (Hnd : NoDup (log_date <$> logsAt (@generateId exampleRuntime 42%float "u1")
                                      (worldWithRecord []))).
  { unfold logsAt. rewrite Hlk. apply NoDup_singleton. }
  split; [exact Hr|]. split; [exact samePair_threeCalls|].
  split; [exact Hl|]. split; [exact Hnd|].
  destruct (@setTimeEntry_preserves_one_log_per_date exampleRuntime 42%float
              "u1" threeCalls (worldWithRecord []) Hr samePair_threeCalls Hl Hnd)
    as (returned & w' & Hrun & Hlogs & _).
  exists returned, w'. split; [exact Hrun|].
  etrans; [exact Hlogs|]. unfold logsAt. rewrite Hlk.
  vm_compute. reflexivity.
Defined.

(** ** Settings and the reads by work item *)

Section FurtherService.
Context `{JsRuntime}.

Lemma getSettings_unfold (w : World) :
  managerAvailable w →
  getSettings w =
    (Resolved (settingsRead w),
     afterRequests w [ReqGetDocument SETTINGS_COLLECTION SETTINGS_DOC_ID] 1).
Proof.
  intros Hm. unfold getSettings, mbind, M_bind, bind.
  rewrite (getDataManager_unfold w Hm).
  unfold try_catch, getSettingsDocument, send, nextFault, settingsRead, faultAt,
    afterRequests.
  destruct w as [te sd fs rq mc sf]; cbn. rewrite app_nil_r.
  destruct fs as [|[e|] fs]; cbn; try done;
    destruct (sd !! SETTINGS_DOC_ID); done.
Qed.

Lemma getAllTimeEntries_unfold (now : string) (w : World) :
  managerAvailable w →
  getAllTimeEntries now w =
    (Resolved (match faultAt 0 w with
               | Some _ => []
               | None => normalize now <$> (map_to_list (timeEntries w)).*2
               end),
     afterRequests w [ReqGetDocuments COLLECTION_NAME] 1).
Proof.
  intros Hm. unfold getAllTimeEntries, mbind, M_bind, bind.
  rewrite (getDataManager_unfold w Hm).
  unfold try_catch, getDocuments, send, nextFault, faultAt, afterRequests.
  destruct w as [te sd fs rq mc sf]; cbn. rewrite app_nil_r.
  destruct fs as [|[e|] fs]; cbn; try done;
    destruct (map_to_list te).*2; done.
Qed.

Lemma sameToken_refl (t : JsVal) : sameToken t t = true.
Proof.
  destruct t; cbn; [unfold sameNumber|]; by apply bool_decide_eq_true_2.
Qed.

Lemma settingsRead_token (w : World) :
  tokenOf (settingsRead w) = None ∨
  ∃ stored, settingsDocs w !! SETTINGS_DOC_ID = Some stored ∧
            tokenOf (settingsRead w) = tokenOf stored.
Proof.
  unfold settingsRead. destruct (faultAt 0 w); [by left|].
  destruct (settingsDocs w !! SETTINGS_DOC_ID) as [stored|]; [|by left].
  right. exists stored. split; [done|].
  unfold tokenOf. rewrite lookup_spread.
  by destruct (stored !! "__etag").
Qed.

Lemma settingsRead_defaults (w : World) (key : string) :
  settingsRead w !! key = None → DEFAULT_SETTINGS !! key = None.
Proof.
  unfold settingsRead. destruct (faultAt 0 w); [done|].
  destruct (settingsDocs w !! SETTINGS_DOC_ID) as [stored|]; [|done].
  rewrite lookup_spread. by destruct (stored !! key).
Qed.

(** The whole of [saveSettings] once a data manager can be had: the settings
    are read ([getSettings] absorbs a failure of that read), merged, and
    written once; a failure of the write is passed on. *)
Lemma saveSettings_unfold (settings : SettingsObj) (w : World) :
  managerAvailable w →
  let newSettings :=
    <["id" := JStr SETTINGS_DOC_ID]> (spread (settingsRead w) settings) in
  let rs := [ReqGetDocument SETTINGS_COLLECTION SETTINGS_DOC_ID;
             ReqSetDocument SETTINGS_COLLECTION SETTINGS_DOC_ID] in
  saveSettings settings w =
    match faultAt 1 w with
    | Some e => (Rejected e, afterRequests w rs 2)
    | None =>
        if staleObj newSettings (settingsDocs w !! SETTINGS_DOC_ID)
        then (Rejected StaleWrite, afterRequests w rs 2)
        else (Resolved newSettings,
              {| timeEntries := timeEntries w;
                 settingsDocs :=
                   <[SETTINGS_DOC_ID :=
                       <["__etag" := nextToken (settingsDocs w !! SETTINGS_DOC_ID)]>
                         newSettings]> (settingsDocs w);
                 faults := drop 2 (faults w);
                 requests := requests w ++ rs;
                 managerCached := true;
                 sdkFault := sdkFault w |})
    end.
Proof.
  intros Hm newSettings rs.
  unfold saveSettings, mbind, M_bind, bind.
  rewrite (getDataManager_unfold w Hm).
  rewrite getSettings_unfold by apply managerAvailable_afterRequests.
  assert (Hread : settingsRead (afterRequests w [] 0) = settingsRead w)
    by (by destruct w).
  rewrite Hread. fold newSettings.
  assert (Hid : idOf newSettings = SETTINGS_DOC_ID).
  { unfold idOf, newSettings. by rewrite lookup_insert_eq. }
  unfold setSettingsDocument, send, nextFault, faultAt, afterRequests.
  rewrite Hid. clearbody newSettings.
  destruct w as [te sd fs rq mc sf]; cbn.
  rewrite app_nil_r, <- app_assoc. cbn.
  destruct fs as [|f1 [|[e|] fs]]; cbn; try done;
    destruct (staleObj newSettings (sd !! SETTINGS_DOC_ID)); done.
Qed.

(** X9. [saveSettings] passes on a failure of its write and leaves the stored
    settings as they were. On a store that answers, partial settings that
    carry no token of their own are merged over what is stored: their keys
    win, every other stored key is kept, missing keys get their default, and
    the id is the fixed one; the merged document is what is stored (under a
    fresh token), and what [getSettings] returns afterwards, the token
    apart. *)
Theorem saveSettings_merges (settings : SettingsObj) (w : World) :
  managerAvailable w →
  settings !! "__etag" = None →
  let stored := settingsDocs w !! SETTINGS_DOC_ID in
  let newSettings :=
    <["id" := JStr SETTINGS_DOC_ID]> (spread (settingsRead w) settings) in
  (∀ e, faultAt 1 w = Some e →
     ∃ w', saveSettings settings w = (Rejected e, w') ∧
           settingsDocs w' = settingsDocs w) ∧
  (faults w = [] →
     ∃ w',
       saveSettings settings w = (Resolved newSettings, w') ∧
       newSettings !! "id" = Some (JStr SETTINGS_DOC_ID) ∧
       (∀ key, key ≠ "id" →
          newSettings !! key =
            match settings !! key with
            | Some v => Some v
            | None =>
                match stored ≫= (.!! key) with
                | Some v => Some v
                | None => DEFAULT_SETTINGS !! key
                end
            end) ∧
       settingsDocs w' !! SETTINGS_DOC_ID =
         Some (<["__etag" := nextToken stored]> newSettings) ∧
       ∃ again w'',
         getSettings w' = (Resolved again, w'') ∧
         ∀ key, key ≠ "__etag" → again !! key = newSettings !! key).
Proof.
  intros Hm Hnotoken stored newSettings.
  rewrite saveSettings_unfold by done. fold newSettings. split.
  - intros e He. rewrite He. by eexists.
  - intros Hf.
    assert (Hf0 : faultAt 0 w = None) by (unfold faultAt; by rewrite Hf).
    assert (Hf1 : faultAt 1 w = None) by (unfold faultAt; by rewrite Hf).
    rewrite Hf1.
    assert (Htok : tokenOf newSettings = tokenOf (settingsRead w)).
    { unfold tokenOf, newSettings. rewrite lookup_insert_ne by done.
      by rewrite lookup_spread, Hnotoken. }
    assert (Hfresh : staleObj newSettings (settingsDocs w !! SETTINGS_DOC_ID)
                     = false).
    { unfold staleObj. rewrite Htok.
      destruct (settingsRead_token w) as [-> | (s & Hs & ->)]; [done|].
      rewrite Hs. cbn. destruct (tokenOf s) as [t|]; [|done].
      by rewrite sameToken_refl. }
    rewrite Hfresh. eexists. split; [reflexivity|].
    split; [apply lookup_insert_eq|].
    assert (Hkeys : ∀ key, key ≠ "id" →
              newSettings !! key =
                match settings !! key with
                | Some v => Some v
                | None =>
                    match stored ≫= (.!! key) with
                    | Some v => Some v
                    | None => DEFAULT_SETTINGS !! key
                    end
                end).
    { intros key Hkey. unfold newSettings.
      rewrite lookup_insert_ne by done. rewrite lookup_spread.
      destruct (settings !! key); [done|].
      unfold settingsRead. rewrite Hf0. fold stored.
      destruct stored as [s|]; [|done]. cbn. apply lookup_spread. }
    split; [exact Hkeys|].
    split; [cbn; apply lookup_insert_eq|].
    rewrite getSettings_unfold by (by left).
    eexists _, _. split; [reflexivity|].
    intros key Hkey. unfold settingsRead, faultAt. cbn. rewrite Hf. cbn.
    rewrite lookup_insert_eq, lookup_spread, lookup_insert_ne by done.
    destruct (newSettings !! key) as [v|] eqn:Hv; [done|].
    destruct (decide (key = "id")) as [->|Hne].
    { unfold newSettings in Hv. by rewrite lookup_insert_eq in Hv. }
    unfold newSettings in Hv.
    rewrite lookup_insert_ne, lookup_spread in Hv by done.
    destruct (settings !! key); [done|].
    by apply settingsRead_defaults in Hv.
Qed.

(** X10. [getTimeEntriesForWorkItem] never rejects once it holds a data manager:
    on a failure of the store it resolves with no entry; otherwise with the
    stored records, normalized, whose work item id is the number asked for.
    A record stored with a textual work item id is found through the number
    that text converts to. *)
Theorem getTimeEntriesForWorkItem_matches (workItemId : number)
    (now : string) (w : World) :
  managerAvailable w →
  ∃ entries w',
    getTimeEntriesForWorkItem workItemId now w = (Resolved entries, w') ∧
    (∀ e, faultAt 0 w = Some e → entries = []) ∧
    (faultAt 0 w = None →
       (∀ entry, entry ∈ entries ↔
          (∃ id doc, timeEntries w !! id = Some doc ∧
                     entry = normalize now doc) ∧
          ∃ x, doc_workItemId entry = Some (JNum x) ∧
               PrimFloat.eqb x workItemId = true) ∧
       (∀ id doc v,
          timeEntries w !! id = Some doc →
          doc_workItemId doc = Some v →
          PrimFloat.eqb (Number v) workItemId = true →
          normalize now doc ∈ entries)).
Proof.
  intros Hm. unfold getTimeEntriesForWorkItem, mbind, M_bind, bind.
  rewrite getAllTimeEntries_unfold by done.
  eexists _, _. split; [reflexivity|].
  destruct (faultAt 0 w) as [e|].
  { split; [done|]. intros; discriminate. }
  split; [intros; discriminate|]. intros _.
  assert (Hin : ∀ entry,
            entry ∈ List.filter
                      (λ entry, strictEqualsNumber (doc_workItemId entry) workItemId)
                      (normalize now <$> (map_to_list (timeEntries w)).*2) ↔
            (∃ id doc, timeEntries w !! id = Some doc ∧ entry = normalize now doc) ∧
            ∃ x, doc_workItemId entry = Some (JNum x) ∧
                 PrimFloat.eqb x workItemId = true).
  { intros entry. rewrite list_elem_of_In, filter_In, <- list_elem_of_In.
    rewrite list_elem_of_fmap. split.
    - intros [(doc & -> & Hdoc) Heq].
      apply list_elem_of_fmap in Hdoc as ([id doc'] & -> & Hdoc).
      apply elem_of_map_to_list in Hdoc. split; [by eauto|].
      unfold strictEqualsNumber in Heq.
      destruct (doc_workItemId _) as [[x|s]|]; [by eauto|done..].
    - intros [(id & doc & Hdoc & ->) (x & Hx & Heq)]. split.
      + exists doc. split; [done|]. by apply elem_of_map_to_list_snd with id.
      + unfold strictEqualsNumber. by rewrite Hx. }
  split; [exact Hin|].
  intros id doc v Hdoc Hv Heq. apply Hin. split; [by eauto|].
  exists (Number v). split; [|done].
  unfold normalize, normalizeWorkItemId.
  assert (Hm' : doc_workItemId (migrateLegacy now doc) = Some v).
  { unfold migrateLegacy. by destruct (doc_logs doc), (doc_hours doc). }
  by rewrite Hm'.
Qed.

(** X11. [getTotalHoursForWorkItem] never rejects once it holds a data manager,
    and answers 0 both when the store fails and when no stored record is for
    the work item: the two cannot be told apart by the caller. *)
Theorem getTotalHoursForWorkItem_zero (workItemId : number) (now : string)
    (w : World) :
  managerAvailable w →
  ∃ total w',
    getTotalHoursForWorkItem workItemId now w = (Resolved total, w') ∧
    (∀ e, faultAt 0 w = Some e → total = 0%float) ∧
    ((∀ id doc, timeEntries w !! id = Some doc →
        strictEqualsNumber (doc_workItemId (normalize now doc)) workItemId
          = false) →
     total = 0%float).
Proof.
  intros Hm.
  unfold getTotalHoursForWorkItem, getTimeEntriesForWorkItem, mbind, M_bind, bind.
  rewrite getAllTimeEntries_unfold by done.
  eexists _, _. split; [reflexivity|].
  destruct (faultAt 0 w) as [e|]; [done|].
  split; [intros; discriminate|].
  intros Hnone.
  destruct (List.filter _ _) as [|entry rest] eqn:Hfilter; [done|].
  exfalso.
  assert (Hentry : In entry (entry :: rest)) by (by left).
  rewrite <- Hfilter in Hentry. apply filter_In in Hentry as [Hentry Heq].
  apply list_elem_of_In, list_elem_of_fmap in Hentry as (doc & -> & Hdoc).
  apply list_elem_of_fmap in Hdoc as ([id doc'] & -> & Hdoc).
  apply elem_of_map_to_list in Hdoc. cbn [snd] in Heq.
  by rewrite (Hnone id doc' Hdoc) in Heq.
Qed.

End FurtherService.

Lemma saveSettings_merges_witness :
  managerAvailable worldWithSettings ∧
  ({[ "hourIncrement" := JNum 1%float ]} : SettingsObj) !! "__etag" = None ∧
  faults worldWithSettings = [] ∧
  ∃ saved w',
    saveSettings {[ "hourIncrement" := JNum 1%float ]} worldWithSettings
      = (Resolved saved, w') ∧
    saved !! "hourIncrement" = Some (JNum 1%float) ∧
    saved !! "theme" = Some (JStr "dark") ∧
    ∃ again w'',
      getSettings w' = (Resolved again, w'') ∧
      again !! "theme" = Some (JStr "dark").
Proof.
  assert (Hm : managerAvailable worldWithSettings) by (by right).
  assert (Hn : ({[ "hourIncrement" := JNum 1%float ]} : SettingsObj) !! "__etag"
               = None) by (vm_compute; reflexivity).
  split; [exact Hm|]. split; [exact Hn|]. split; [reflexivity|].
  destruct (saveSettings_merges {[ "hourIncrement" := JNum 1%float ]}
              worldWithSettings Hm Hn) as [_ Hok].
  destruct (Hok eq_refl) as (w' & Hsave & _ & Hkeys & _ & again & w'' & Hget & Hagain).
  eexists _, w'. split; [exact Hsave|].
  assert (Hinc : "hourIncrement" ≠ "id") by discriminate.
  assert (Hth : "theme" ≠ "id") by discriminate.
  assert (Hth' : "theme" ≠ "__etag") by discriminate.
  split; [etrans; [exact (Hkeys _ Hinc)|]; vm_compute; reflexivity|].
  split; [etrans; [exact (Hkeys _ Hth)|]; vm_compute; reflexivity|].
  exists again, w''. split; [exact Hget|].
  etrans; [exact (Hagain _ Hth')|].
  etrans; [exact (Hkeys _ Hth)|]. vm_compute. reflexivity.
Defined.

Lemma getTimeEntriesForWorkItem_matches_witness :
  managerAvailable (worldWithLegacy []) ∧
  faultAt 0 (worldWithLegacy []) = None ∧
  timeEntries (worldWithLegacy []) !! "time-entry-7-u2" = Some legacyExample ∧
  doc_workItemId legacyExample = Some (JStr "7") ∧
  PrimFloat.eqb (@Number exampleRuntime (JStr "7")) 7%float = true ∧
  ∃ entries w',
    @getTimeEntriesForWorkItem exampleRuntime 7%float
      "2024-01-01T00:00:00.000Z" (worldWithLegacy []) = (Resolved entries, w') ∧
    @normalize exampleRuntime "2024-01-01T00:00:00.000Z" legacyExample ∈ entries.
Proof.
  assert (Hm : managerAvailable (worldWithLegacy [])) by (by right).
  assert (Hlk : timeEntries (worldWithLegacy []) !! "time-entry-7-u2"
                = Some legacyExample) by (vm_compute; reflexivity).
  assert (Heq : PrimFloat.eqb (@Number exampleRuntime (JStr "7")) 7%float = true)
    by (vm_compute; reflexivity).
  split; [exact Hm|]. split; [reflexivity|]. split; [exact Hlk|].
  split; [reflexivity|]. split; [exact Heq|].
  destruct (@getTimeEntriesForWorkItem_matches exampleRuntime 7%float
              "2024-01-01T00:00:00.000Z" (worldWithLegacy []) Hm)
    as (entries & w' & Hget & _ & Hok).
  destruct (Hok eq_refl) as [_ Hfound].
  exists entries, w'. split; [exact Hget|].
  exact (Hfound "time-entry-7-u2" legacyExample (JStr "7") Hlk eq_refl Heq).
Defined.

Lemma getTotalHoursForWorkItem_zero_witness :
  managerAvailable (worldWithLegacy [Some StoreUnavailable]) ∧
  faultAt 0 (worldWithLegacy [Some StoreUnavailable]) = Some StoreUnavailable ∧
  (∃ w',
     @getTotalHoursForWorkItem exampleRuntime 7%float
       "2024-01-01T00:00:00.000Z" (worldWithLegacy [Some StoreUnavailable])
     = (Resolved 0%float, w')) ∧
  managerAvailable freshWorld ∧
  (∀ id doc, timeEntries freshWorld !! id = Some doc →
     strictEqualsNumber
       (doc_workItemId (@normalize exampleRuntime "2024-01-01T00:00:00.000Z" doc))
       7%float = false) ∧
  (∃ w',
     @getTotalHoursForWorkItem exampleRuntime 7%float
       "2024-01-01T00:00:00.000Z" freshWorld = (Resolved 0%float, w')).
Proof.
  assert (Hm : managerAvailable (worldWithLegacy [Some StoreUnavailable]))
    by (by right).
  assert (Hm' : managerAvailable freshWorld) by (by right).
  assert (Hnone : ∀ id doc, timeEntries freshWorld !! id = Some doc →
            strictEqualsNumber
              (doc_workItemId
                 (@normalize exampleRuntime "2024-01-01T00:00:00.000Z" doc))
              7%float = false).
  { intros id doc Hdoc. unfold freshWorld in Hdoc. cbn [timeEntries] in Hdoc.
    by rewrite lookup_empty in Hdoc. }
  split; [exact Hm|]. split; [reflexivity|].
  split.
  { destruct (@getTotalHoursForWorkItem_zero exampleRuntime 7%float
                "2024-01-01T00:00:00.000Z"
                (worldWithLegacy [Some StoreUnavailable]) Hm)
      as (total & w' & Hget & Hfail & _).
    exists w'. by rewrite <- (Hfail StoreUnavailable eq_refl). }
  split; [exact Hm'|]. split; [exact Hnone|].
  destruct (@getTotalHoursForWorkItem_zero exampleRuntime 7%float
              "2024-01-01T00:00:00.000Z" freshWorld Hm')
    as (total & w' & Hget & _ & Hzero).
  exists w'. by rewrite <- (Hzero Hnone).
Defined.

(** ** The report page, further *)

Section FurtherReports.
Context `{JsRuntime}.





End FurtherReports.

(** ** The filter dropdowns *)

Section Dropdowns.










End Dropdowns.

(** ** The filters and the exports, further *)

Section FurtherFilters.
Context `{JsRuntime}.

(** X14. Resetting the filters clears the two dates, the user and the work item
    type and leaves the work item id control as it is: the rows shown
    afterwards are those that match the work item id still typed in (all of
    them when that control is empty or missing), and they include every row
    that was shown before. *)
Theorem resetFilters_keeps_workItemId (inputs : FilterInputs)
    (flatLogs : list FlatLog) :
  let cleared := (resetFilters inputs flatLogs).1 in
  let shown := (resetFilters inputs flatLogs).2 in
  filterStartDate cleared = "" ∧ filterEndDate cleared = "" ∧
  filterUser cleared = "" ∧ filterWorkItemType cleared = "" ∧
  filterWorkItemId cleared = filterWorkItemId inputs ∧
  shown =
    filter (λ row, whenProvided (filterWorkItemId inputs ≫= provided)
                     (λ i, Number_toString (row_workItemId row) = i))
      flatLogs ∧
  (filterWorkItemId inputs ≫= provided = None → shown = flatLogs) ∧
  applyFilters inputs flatLogs ⊆ shown.
Proof.
  unfold resetFilters. cbn [fst snd].
  set (cleared := {| filterStartDate := ""; filterEndDate := "";
                     filterUser := ""; filterWorkItemType := "";
                     filterWorkItemId := filterWorkItemId inputs |}).
  assert (Hkeep : ∀ row,
            keepLog
              {| startDate := or_undefined (Some (filterStartDate cleared));
                 endDate := or_undefined (Some (filterEndDate cleared));
                 userId := or_undefined (Some (filterUser cleared));
                 workItemType :=
                   or_undefined (Some (filterWorkItemType cleared)) |}
              (or_undefined (filterWorkItemId cleared)) row = true ↔
            whenProvided (filterWorkItemId inputs ≫= provided)
              (λ i, Number_toString (row_workItemId row) = i)).
  { intros row. rewrite keepLog_satisfies. unfold satisfies, criteriaOf.
    cbn [cleared fromDate toDate byUserId byWorkItemType byWorkItemId
         filterStartDate filterEndDate filterUser filterWorkItemType
         filterWorkItemId].
    change (provided "") with (@None string). cbn [whenProvided]. tauto. }
  assert (Hshown : applyFilters cleared flatLogs =
            filter (λ row, whenProvided (filterWorkItemId inputs ≫= provided)
                             (λ i, Number_toString (row_workItemId row) = i))
              flatLogs).
  { unfold applyFilters. induction flatLogs as [|row rows IH]; [done|].
    cbn [List.filter]. rewrite filter_cons, IH.
    specialize (Hkeep row). destruct (keepLog _ _ row).
    - rewrite decide_True; [done|]. by apply Hkeep.
    - rewrite decide_False; [done|]. intros Hs. by apply Hkeep in Hs. }
  split_and!; try done.
  - intros Hnone. rewrite Hshown, Hnone. clear.
    induction flatLogs as [|row rows IH]; [done|].
    rewrite filter_cons, decide_True by done. by rewrite IH.
  - intros row. rewrite Hshown, list_elem_of_filter.
    unfold applyFilters. rewrite list_elem_of_In, filter_In, <- list_elem_of_In.
    rewrite keepLog_satisfies. unfold satisfies, criteriaOf. cbn. tauto.
Qed.

(** X15. A date range whose end lies before its start shows no row. *)
Theorem applyFilters_inverted_range (inputs : FilterInputs)
    (flatLogs : list FlatLog) :
  filterStartDate inputs ≠ "" → filterEndDate inputs ≠ "" →
  ¬ (filterStartDate inputs ≤ filterEndDate inputs)%string →
  applyFilters inputs flatLogs = [].
Proof.
  intros Hstart Hend Hinv. unfold applyFilters.
  induction flatLogs as [|row rows IH]; [done|].
  cbn [List.filter]. rewrite IH.
  pose proof (keepLog_satisfies inputs row) as Hk.
  destruct (keepLog _ _ row); [|done].
  destruct Hk as [Hk _]. destruct (Hk eq_refl) as (Hfrom & Hto & _).
  unfold criteriaOf, provided in Hfrom, Hto. cbn in Hfrom, Hto.
  rewrite decide_False in Hfrom by done. rewrite decide_False in Hto by done.
  cbn in Hfrom, Hto. destruct Hinv. by etrans.
Qed.

End FurtherFilters.

Section FurtherExport.
Context `{JsRuntime}.

Lemma entryLine_unfold (workItemId title type hours user description updated
    rest : string) :
  join ","
    [ workItemId;
      String dquote (doubleQuotes title +:+ String dquote "");
      type; hours; user;
      String dquote (doubleQuotes description +:+ String dquote "");
      updated ] +:+ rest =
    workItemId +:+ String comma
      (String dquote
         (doubleQuotes title +:+ String dquote (String comma
            (type +:+ String comma
               (hours +:+ String comma
                  (user +:+ String comma
                     (String dquote
                        (doubleQuotes description +:+
                           String dquote (String comma (updated +:+ rest)))))))))).
Proof.
  cbn [join].
  repeat (progress rewrite ?append_assoc, ?append_String, ?append_empty).
  done.
Qed.

(** The line of a record with plain cells, read up to the end of the line. *)
Lemma readCSV_go_entryRow (entry : Doc) (row : list string) (rest : string) :
  plainEntry entry → entryRow entry = Some row →
  readCSV_go FieldStart "" [] (join "," row +:+ rest) =
    readCSV_go (afterPlain FieldStart (default "" (doc_updatedAt entry)))
      (String.rev_app (default "" (doc_updatedAt entry)) "")
      (reverse (take 6 (entryCells entry))) rest.
Proof.
  intros ([workItemId Hid] & Hpid & Htype & Hhours & Huser & Hupdated) Hrow.
  unfold entryRow in Hrow. rewrite Hid in Hrow.
  cbn [mbind option_bind] in Hrow. injection Hrow as <-. unfold entryCells. rewrite Hid in Hpid |- *.
  cbn [from_option] in Hpid |- *.
  replace (if truthy_string (doc_description entry)
           then doc_description entry else "")
    with (doc_description entry) by (by destruct (doc_description entry)).
  rewrite entryLine_unfold.
  rewrite readCSV_go_plain_field by done.
  rewrite readCSV_go_quoted_field.
  rewrite !readCSV_go_plain_field by done.
  rewrite readCSV_go_quoted_field.
  by rewrite readCSV_go_plain by done.
Qed.

Lemma entryRow_plainEntry (entry : Doc) :
  plainEntry entry → is_Some (entryRow entry).
Proof.
  intros ([workItemId Hid] & _). unfold entryRow. rewrite Hid. by eexists.
Qed.

Lemma readCSV_go_entryRows (entries : list Doc) (rows : list (list string)) :
  entries ≠ [] → Forall plainEntry entries →
  mapM entryRow entries = Some rows →
  readCSV_go FieldStart "" [] (join (String newline "") (join "," <$> rows)) =
    entryCells <$> entries.
Proof.
  intros Hne Hall Hrows. apply mapM_Some in Hrows.
  induction Hrows as [|entry row entries rows Hrow Hrows IH]; [done|].
  apply Forall_cons in Hall as [Hentry Hall].
  destruct Hrows as [|entry' row' entries rows Hrow' Hrows].
  - change (join (String newline "") (join "," <$> [row])) with (join "," row).
    rewrite <- (append_nil_r (join "," row)).
    rewrite (readCSV_go_entryRow entry) by done.
    cbn [readCSV_go]. by rewrite rev_rev_app.
  - rewrite (fmap_cons (join ",")), (fmap_cons (join ",")), join_cons_cons,
      <- (fmap_cons (join ",")), (append_String newline ""), append_empty.
    rewrite (readCSV_go_entryRow entry) by done.
    rewrite readCSV_go_newline by (by apply afterPlain_not_quoted).
    rewrite rev_rev_app, IH by done. done.
Qed.

Lemma readCSV_service_header (rest : string) :
  readCSV
    (join ","
       [ "Work Item ID"; "Work Item Title"; "Type"; "Hours"; "User";
         "Description"; "Last Updated" ] +:+ String newline rest) =
    [ "Work Item ID"; "Work Item Title"; "Type"; "Hours"; "User";
      "Description"; "Last Updated" ]
      :: readCSV_go FieldStart "" [] rest.
Proof. reflexivity. Qed.

(** X17. The export of the service throws exactly when one of the records has no
    work item id. *)
Theorem service_export_needs_workItemId (entries : list Doc) :
  TimeEntryService_exportToCSV entries = None ↔
  ∃ entry, entry ∈ entries ∧ doc_workItemId entry = None.
Proof.
  unfold TimeEntryService_exportToCSV.
  assert (Hrows : mapM entryRow entries = None ↔
                  ∃ entry, entry ∈ entries ∧ doc_workItemId entry = None).
  { rewrite eq_None_not_Some, mapM_is_Some, <- Exists_Forall_neg
      by (intros entry; cbn; destruct (entryRow entry); [left; by eexists|right; by intros [? ?]]).
    rewrite Exists_exists. apply exist_proper. intros entry.
    unfold entryRow. cbn.
    destruct (doc_workItemId entry); cbn; split.
    - intros [_ []]. by eexists.
    - by intros [_ ?].
    - by intros [? _].
    - intros [? _]. split; [done|]. by intros [? ?]. }
  rewrite <- Hrows. destruct (mapM entryRow entries); cbn; split; done.
Qed.

(** X18. When every record has a work item id and the cells the export of the
    service writes without quotes are plain, the text is read back as the
    header and the cells of every record, whatever title and description
    hold; without records it is the header alone. *)
Theorem service_export_read_back (entries : list Doc) :
  Forall plainEntry entries →
  readCSV <$> TimeEntryService_exportToCSV entries =
    Some ([ "Work Item ID"; "Work Item Title"; "Type"; "Hours"; "User";
            "Description"; "Last Updated" ]
            :: (entryCells <$> entries)).
Proof.
  intros Hall. unfold TimeEntryService_exportToCSV.
  assert (Hsome : is_Some (mapM entryRow entries)).
  { apply mapM_is_Some. eapply Forall_impl; [exact Hall|].
    intros entry. apply entryRow_plainEntry. }
  destruct Hsome as [rows Hrows]. rewrite Hrows. cbn [mbind option_bind].
  change (readCSV <$> Some ?text) with (Some (readCSV text)). f_equal.
  destruct entries as [|entry entries].
  - apply mapM_Some in Hrows. inversion Hrows; subst. reflexivity.
  - assert (Hne : entry :: entries ≠ []) by done.
    pose proof (readCSV_go_entryRows _ _ Hne Hall Hrows) as Hread.
    apply mapM_Some in Hrows.
    destruct Hrows as [|entry0 row entries0 rows Hrow Hrows]; [done|].
    rewrite (fmap_cons (join ",")) in Hread |- *.
    rewrite join_cons_cons, (append_String newline ""), append_empty.
    rewrite readCSV_service_header. by rewrite Hread.
Qed.

End FurtherExport.

Lemma applyFilters_inverted_range_witness :
  let inputs :=
    {| filterStartDate := "2024-02-01";
       filterEndDate := "2024-01-01";
       filterUser := "";
       filterWorkItemType := "";
       filterWorkItemId := None |} in
  filterStartDate inputs ≠ "" ∧ filterEndDate inputs ≠ "" ∧
  ¬ (filterStartDate inputs ≤ filterEndDate inputs)%string ∧
  @applyFilters exampleRuntime inputs
    [ exampleRow "2024-01-15" None ""; exampleRow "2024-02-15" None "" ] = [].
Proof.
  intros inputs.
  assert (Hstart : filterStartDate inputs ≠ "") by discriminate.
  assert (Hend : filterEndDate inputs ≠ "") by discriminate.
  assert (Hinv : ¬ (filterStartDate inputs ≤ filterEndDate inputs)%string)
    by (vm_compute; exact id).
  split; [exact Hstart|]. split; [exact Hend|]. split; [exact Hinv|].
  exact (@applyFilters_inverted_range exampleRuntime inputs _ Hstart Hend Hinv).
Defined.

Lemma exportToCSV_round_trip_plain_witness :
  let rows := [ exampleRow "2024-01-15" (Some "Doe") "first, then second";
                exampleRow "2024-01-16" None "" ] in
  rows ≠ [] ∧ Forall (@plainRow exampleRuntime) rows ∧
  readCSV <$> @exportToCSV exampleRuntime rows =
    Some [ [ "Work Item"; "Type"; "Hours"; "User"; "Description"; "Date" ];
           [ "#42"; "Bug"; "1.5"; "Doe"; "first, then second"; "2024-01-15" ];
           [ "#42"; "Bug"; "1.5"; "u1"; ""; "2024-01-16" ] ].
Proof.
  intros rows.
  assert (Hne : rows ≠ []) by discriminate.
  assert (Hall : Forall (@plainRow exampleRuntime) rows).
  { repeat apply Forall_cons_2; [| |apply Forall_nil_2];
      unfold plainRow; repeat split; vm_compute; reflexivity. }
  split; [exact Hne|]. split; [exact Hall|].
  etrans; [exact (@exportToCSV_round_trip_plain exampleRuntime rows Hne Hall)|].
  vm_compute. reflexivity.
Defined.

Lemma service_export_read_back_witness :
  Forall (@plainEntry exampleRuntime) [storedExample] ∧
  readCSV <$> @TimeEntryService_exportToCSV exampleRuntime [storedExample] =
    Some [ [ "Work Item ID"; "Work Item Title"; "Type"; "Hours"; "User";
             "Description"; "Last Updated" ];
           @entryCells exampleRuntime storedExample ].
Proof.
  assert (Hall : Forall (@plainEntry exampleRuntime) [storedExample]).
  { apply Forall_cons_2; [|apply Forall_nil_2]. unfold plainEntry.
    split; [by eexists|]. repeat split; vm_compute; reflexivity. }
  split; [exact Hall|].
  exact (@service_export_read_back exampleRuntime _ Hall).
Defined.
